(** * utility.c: ICMPv4 Echo Request / Echo Reply MAC reporter

    A shallow embedding of [csum16], [build_icmp_echo], [wait_reply],
    [print_mac] and the reporting tail of [main] from [src/utility.c],
    together with the properties the specification states about them.

    Conventions of the embedding:
    - a byte is a [Byte.byte]; its numeric value is [b2z b], in [0, 256);
    - a [uint16_t], [uint32_t], [int] or [ssize_t] is a [Z]; the wrap-around
      of every unsigned operation is written out;
    - a memory buffer is a [list byte]; an access of a [uint16_t] through a
      pointer reads or writes two consecutive bytes in the byte order of the
      host, which is a parameter ([endian]) of every definition that touches
      memory through a wider type. *)

From Stdlib Require Import Ascii String.
From Stdlib Require Import ZArith List Lia Bool.
From Stdlib Require Strings.Byte.
From Equations Require Import Equations.
Import ListNotations.

Local Open Scope list_scope.
Local Open Scope Z_scope.

Abbreviation byte := Byte.byte.

(** ** Bytes *)

Definition b2z (b : byte) : Z := Z.of_N (Byte.to_N b).

(** [(uint8_t) z]: the low eight bits of [z]. *)
Definition z2b (z : Z) : byte :=
  match Byte.of_N (Z.to_N (z mod 256)) with
  | Some b => b
  | None => Byte.x00
  end.

(** ** Host byte order *)

Inductive endian : Type := Little | Big.

(** [*(const uint16_t * )p] where [p] points at the bytes [b0; b1]. *)
Definition load16 (e : endian) (b0 b1 : byte) : Z :=
  match e with
  | Little => Z.lor (b2z b0) (Z.shiftl (b2z b1) 8)
  | Big => Z.lor (Z.shiftl (b2z b0) 8) (b2z b1)
  end.

(** [*(uint16_t * )p = v]: the two bytes written at [p]. *)
Definition store16 (e : endian) (v : Z) : list byte :=
  match e with
  | Little => [z2b v; z2b (Z.shiftr v 8)]
  | Big => [z2b (Z.shiftr v 8); z2b v]
  end.

(** [htons] of <arpa/inet.h>, on the argument converted to [uint16_t]:
    identity on a big-endian host, byte swap on a little-endian one.
    [ntohs] is the same function. *)
Definition htons (e : endian) (v : Z) : Z :=
  match e with
  | Little => Z.lor (Z.shiftl (Z.land v 255) 8) (Z.land (Z.shiftr v 8) 255)
  | Big => Z.land v 65535
  end.

Definition ntohs : endian -> Z -> Z := htons.

(** ** csum16 (utility.c, lines 26-41) *)

(** [sum += x] on a [uint32_t]. *)
Definition add32 (sum x : Z) : Z := (sum + x) mod 2 ^ 32.

(** [while (len > 1) { sum += *w++; len -= 2; }]: returns the accumulator and
    the bytes not yet consumed (none, or the single trailing byte). *)
Fixpoint csum16_words (e : endian) (w : list byte) (sum : Z) : Z * list byte :=
  match w with
  | b0 :: b1 :: w' => csum16_words e w' (add32 sum (load16 e b0 b1))
  | _ => (sum, w)
  end.

(** [if (len) sum += *(const uint8_t * )w;] *)
Definition csum16_tail (st : Z * list byte) : Z :=
  match st with
  | (sum, b :: _) => add32 sum (b2z b)
  | (sum, []) => sum
  end.

#[local] Obligation Tactic := idtac.

(** [while (sum >> 16) sum = (sum & 0xFFFF) + (sum >> 16);]
    The test of an unsigned value against zero is written [0 < _]; the loop
    ends because [sum] decreases at every turn. *)
Equations? (noind) csum16_fold (sum : Z) : Z by wf (Z.to_nat sum) lt :=
  csum16_fold sum with Z_lt_dec 0 (Z.shiftr sum 16) => {
    | left _ := csum16_fold (Z.land sum 65535 + Z.shiftr sum 16);
    | right _ := sum }.
Proof.
  rewrite Z.shiftr_div_pow2 in * by lia.
  change 65535 with (Z.ones 16). rewrite Z.land_ones by lia.
  change (2 ^ 16) with 65536 in *.
  assert (0 < sum) by (destruct sum; [discriminate | lia | exfalso];
    pose proof (Z.div_lt_upper_bound (Z.neg p) 65536 0); lia).
  pose proof (Z.div_mod sum 65536). pose proof (Z.mod_pos_bound sum 65536). lia.
Qed.

(** [return (uint16_t)~sum;] *)
Definition not16 (sum : Z) : Z := Z.land (Z.lnot sum) 65535.

(** [data] holds the [len] bytes the pointer of the same name points at. *)
Definition csum16 (e : endian) (data : list byte) : Z :=
  let sum := 0 in
  let st := csum16_words e data sum in
  let sum := csum16_tail st in
  let sum := csum16_fold sum in
  not16 sum.

(** ** Buffers *)

(** [buf[off]] as a [uint8_t]. *)
Definition peek8 (buf : list byte) (off : nat) : Z := b2z (nth off buf Byte.x00).

(** [*(uint16_t * )(buf + off)]. *)
Definition peek16 (e : endian) (buf : list byte) (off : nat) : Z :=
  load16 e (nth off buf Byte.x00) (nth (S off) buf Byte.x00).

(** [memcpy(buf + off, bs, length bs)]. *)
Definition poke (buf : list byte) (off : nat) (bs : list byte) : list byte :=
  firstn off buf ++ bs ++ skipn (off + length bs) buf.

(** ** Constants of the system headers *)

Definition ETH_ALEN : nat := 6.                (* <net/ethernet.h> *)
Definition ETH_P_IP : Z := 2048.               (* 0x0800 *)
Definition IPPROTO_ICMP : Z := 1.              (* <netinet/in.h> *)
Definition ICMP_ECHOREPLY : Z := 0.            (* <netinet/ip_icmp.h> *)
Definition ICMP_ECHO : Z := 8.
Definition sizeof_ether_header : nat := 14.
Definition sizeof_iphdr : nat := 20.
Definition sizeof_icmphdr : nat := 8.

(** Offsets of the members of [struct ether_header], [struct iphdr] and
    [struct icmphdr]. The bit-field [ihl] is the low nibble of the first
    byte of the IPv4 header on either byte order. *)
Definition off_ether_shost : nat := 6.
Definition off_ether_type : nat := 12.
Definition off_ip_protocol : nat := 9.
Definition off_icmp_type : nat := 0.
Definition off_icmp_code : nat := 1.
Definition off_icmp_checksum : nat := 2.
Definition off_icmp_id : nat := 4.
Definition off_icmp_sequence : nat := 6.

(** ** build_icmp_echo (utility.c, lines 49-69)

    [buf] is [None] for a null pointer. [now] is the object representation
    of the [time_t] returned by [time(NULL)], so [sizeof(now)] is
    [length now]. The result is the return value and the buffer after the
    call. *)
Definition build_icmp_echo (e : endian) (buf : option (list byte))
    (id seq : Z) (now : list byte) : Z * option (list byte) :=
  let pkt_len := 64%nat in
  match buf with
  | None => (-1, None)
  | Some buf =>
      let buf := poke buf off_icmp_type [z2b ICMP_ECHO] in
      let buf := poke buf off_icmp_code [z2b 0] in
      let buf := poke buf off_icmp_checksum (store16 e 0) in
      let buf := poke buf off_icmp_id (store16 e (htons e id)) in
      let buf := poke buf off_icmp_sequence (store16 e (htons e seq)) in
      let data_len := (pkt_len - sizeof_icmphdr)%nat in
      let buf := poke buf sizeof_icmphdr (repeat Byte.x00 data_len) in
      let buf := poke buf sizeof_icmphdr
                   (firstn (if (data_len <? length now)%nat
                            then data_len else length now) now) in
      let buf := poke buf off_icmp_checksum
                   (store16 e (csum16 e (firstn pkt_len buf))) in
      (Z.of_nat pkt_len, Some buf)
  end.

(** ** The capture socket

    What the kernel does at one iteration of the loop of [wait_reply]:
    the value [poll] returns and, when [recv] is then called, what [recv]
    delivers. *)
Inductive recv_result : Type :=
| RecvError                          (* recv returns -1, buffer unchanged *)
| RecvFrame (frame : list byte).     (* a frame as seen on the wire *)

Record event : Type := Event { poll_rc : Z; rx : recv_result }.

(** [recv(psock, buf, len, 0)] on a packet socket: the frame is cut to
    [len] bytes; the return value and the buffer after the call. *)
Definition recv (r : recv_result) (buf : list byte) (len : nat) : Z * list byte :=
  match r with
  | RecvError => (-1, buf)
  | RecvFrame frame =>
      let d := firstn len frame in (Z.of_nat (length d), poke buf 0 d)
  end.

(** ** wait_reply (utility.c, lines 112-145) *)

(** Lines 120-139, the tests between [recv] and [memcpy]: [true] when no
    [continue] is taken. [n] is the return value of [recv] and [buf] the
    buffer after it. *)
Definition wait_reply_filter (e : endian) (id seq : Z) (n : Z) (buf : list byte) : bool :=
  if n <? Z.of_nat (sizeof_ether_header + sizeof_iphdr + sizeof_icmphdr) then false
  else if negb (ntohs e (peek16 e buf off_ether_type) =? ETH_P_IP) then false
  else
    let ip := sizeof_ether_header in
    let ip_hl := Z.land (peek8 buf ip) 15 * 4 in
    if ip_hl <? 20 then false
    else if negb (peek8 buf (ip + off_ip_protocol) =? IPPROTO_ICMP) then false
    else
      let icmp := (sizeof_ether_header + Z.to_nat ip_hl)%nat in
      if negb (peek8 buf (icmp + off_icmp_type) =? ICMP_ECHOREPLY)
         || negb (peek8 buf (icmp + off_icmp_code) =? 0) then false
      else if negb (peek16 e buf (icmp + off_icmp_id) =? htons e id) then false
      else if negb (peek16 e buf (icmp + off_icmp_sequence) =? htons e seq) then false
      else true.

(** The loop. [world] lists what the socket does at each iteration; once it
    is exhausted nothing more arrives and [poll] returns 0. [buf] is the
    content of the local array [buf[2048]] at the head of the iteration
    (indeterminate at the first one, left by the earlier [recv] calls
    afterwards) and [mac_out] the content of the caller's array. The result
    is the return value and the caller's array after the call. The timeout
    is handed to [poll] unchanged at each iteration; when [poll] gives up is
    the kernel's decision, recorded in [world]. *)
Fixpoint wait_reply (e : endian) (id seq tout_ms : Z) (world : list event)
    (buf mac_out : list byte) : Z * list byte :=
  match world with
  | [] => (-1, mac_out)
  | ev :: world' =>
      if poll_rc ev >? 0 then
        let (n, buf) := recv (rx ev) buf 2048 in
        if wait_reply_filter e id seq n buf then
          (0, poke mac_out 0 (firstn ETH_ALEN (skipn off_ether_shost buf)))
        else wait_reply e id seq tout_ms world' buf mac_out
      else (-1, mac_out)
  end.

(** ** print_mac (utility.c, lines 152-156) *)

Definition hex_digit (d : Z) : ascii :=
  nth (Z.to_nat d) (list_ascii_of_string "0123456789abcdef") "?"%char.

(** [%02x] of a [uint8_t]. *)
Definition fmt_02x (v : Z) : string :=
  String (hex_digit (v / 16)) (String (hex_digit (v mod 16)) EmptyString).

Definition newline : string := String (ascii_of_nat 10) EmptyString.

(** The text written to the standard output. *)
Definition print_mac (m : list byte) : string :=
  (fmt_02x (peek8 m 0) ++ ":" ++ fmt_02x (peek8 m 1) ++ ":" ++
   fmt_02x (peek8 m 2) ++ ":" ++ fmt_02x (peek8 m 3) ++ ":" ++
   fmt_02x (peek8 m 4) ++ ":" ++ fmt_02x (peek8 m 5) ++ newline)%string.

(** ** main, lines 196-206: wait for the reply and report *)

Inductive exit_status : Type := EXIT_SUCCESS | EXIT_FAILURE.

Record report : Type :=
  Report { to_stdout : string; to_stderr : string; status : exit_status }.

Definition main_wait_and_report (e : endian) (pid16 : Z) (world : list event)
    (buf mac : list byte) : report :=
  let (r, mac) := wait_reply e pid16 1 3000 world buf mac in
  if r =? 0 then Report (print_mac mac) EmptyString EXIT_SUCCESS
  else Report EmptyString ("Timeout waiting for Echo Reply" ++ newline)%string EXIT_FAILURE.

(** ** Concrete frames

    [example_reply]: an Echo Reply of 42 bytes from aa:bb:cc:dd:ee:ff with
    id 1234 (0x04d2), sequence 1 and a correct ICMP checksum (0xfb2c).
    [decoy_frame]: an 82-byte ARP-typed frame whose bytes 74..81 spell the
    ICMP header of such a reply. [short_frame]: a 42-byte IPv4/ICMP frame
    from de:ad:be:ef:00:01 whose header-length field is 15, so that its ICMP
    header would start at byte 74, beyond its end. *)
Definition example_reply : list byte :=
  [Byte.x02; Byte.x00; Byte.x00; Byte.x00; Byte.x00; Byte.x01;
   Byte.xaa; Byte.xbb; Byte.xcc; Byte.xdd; Byte.xee; Byte.xff;
   Byte.x08; Byte.x00;
   Byte.x45; Byte.x00; Byte.x00; Byte.x1c; Byte.x00; Byte.x00; Byte.x00; Byte.x00;
   Byte.x40; Byte.x01; Byte.x00; Byte.x00;
   Byte.x0a; Byte.x00; Byte.x00; Byte.x02; Byte.x0a; Byte.x00; Byte.x00; Byte.x01;
   Byte.x00; Byte.x00; Byte.xfb; Byte.x2c; Byte.x04; Byte.xd2; Byte.x00; Byte.x01].

Definition decoy_frame : list byte :=
  [Byte.x02; Byte.x00; Byte.x00; Byte.x00; Byte.x00; Byte.x01;
   Byte.x11; Byte.x11; Byte.x11; Byte.x11; Byte.x11; Byte.x11;
   Byte.x08; Byte.x06] ++ repeat Byte.x00 60 ++
  [Byte.x00; Byte.x00; Byte.x00; Byte.x00; Byte.x04; Byte.xd2; Byte.x00; Byte.x01].

Definition short_frame : list byte :=
  [Byte.x02; Byte.x00; Byte.x00; Byte.x00; Byte.x00; Byte.x01;
   Byte.xde; Byte.xad; Byte.xbe; Byte.xef; Byte.x00; Byte.x01;
   Byte.x08; Byte.x00;
   Byte.x4f; Byte.x00; Byte.x00; Byte.x1c; Byte.x00; Byte.x00; Byte.x00; Byte.x00;
   Byte.x40; Byte.x01; Byte.x00; Byte.x00;
   Byte.x0a; Byte.x00; Byte.x00; Byte.x02; Byte.x0a; Byte.x00; Byte.x00; Byte.x01]
  ++ repeat Byte.x00 8.

(** * The specification's vocabulary

    The definitions below follow the words of the specification, not the
    code; the theorems compare them with the definitions above. *)

(** ** Section 4.1: the reference checksum *)

(** The value of a 16-bit word made of the bytes [b0; b1] in the natural
    byte order of the host. *)
Definition word_value (e : endian) (b0 b1 : byte) : Z :=
  match e with
  | Little => b2z b0 + 256 * b2z b1
  | Big => 256 * b2z b0 + b2z b1
  end.

(** The complete 16-bit words of the buffer. *)
Fixpoint complete_words (e : endian) (data : list byte) : list Z :=
  match data with
  | b0 :: b1 :: rest => word_value e b0 b1 :: complete_words e rest
  | _ => []
  end.

(** The final byte of a buffer of odd length, as the low-order byte of one
    more word; nothing when the length is even. *)
Definition trailing_word (data : list byte) : Z :=
  if Nat.odd (length data) then b2z (last data Byte.x00) else 0.

(** The sum of all complete words and of the trailing byte. *)
Definition word_sum (e : endian) (data : list byte) : Z :=
  fold_right Z.add 0 (complete_words e data) + trailing_word data.

(** The 32-bit accumulator after all additions. *)
Definition accumulator32 (e : endian) (data : list byte) : Z :=
  word_sum e data mod 2 ^ 32.

(** Add the high 16 bits into the low 16 bits until no carry remains. *)
Inductive carries_folded : Z -> Z -> Prop :=
| no_carry_remains (s : Z) : s / 65536 = 0 -> carries_folded s s
| fold_one_carry (s r : Z) :
    s / 65536 <> 0 -> carries_folded (s mod 65536 + s / 65536) r ->
    carries_folded s r.

(** The bitwise complement of the lowest 16 bits. *)
Definition complement16 (s : Z) : Z := 65535 - s mod 65536.


(** RFC 1071 on the byte stream itself: 16-bit words with the first byte
    as the high-order one, an odd final byte padded with a zero byte on the
    right, ones'-complement addition (end-around carry), complement. *)
Definition ones_add (a b : Z) : Z :=
  let s := a + b in if s <? 65536 then s else s - 65535.

Fixpoint network_words (data : list byte) : list Z :=
  match data with
  | b0 :: b1 :: rest => (256 * b2z b0 + b2z b1) :: network_words rest
  | [b] => [256 * b2z b]
  | [] => []
  end.

Definition internet_checksum (data : list byte) : Z :=
  65535 - fold_left ones_add (network_words data) 0.

(** A 16-bit value encoded in network byte order. *)
Definition network_order (v : Z) : list byte := [z2b (v / 256); z2b (v mod 256)].

(** The representative in [0, 65535] of a non-negative sum in ones'-
    complement arithmetic: 0 for 0, otherwise the residue modulo 65535 taken
    in [1, 65535]. *)
Definition ones_normal (s : Z) : Z :=
  if s =? 0 then 0 else (s - 1) mod 65535 + 1.

(** ** Section 4.2: the Echo Request before its checksum is stamped

    Type 8, code 0, checksum 0, id and sequence in network byte order, then
    the 56-byte payload: the leading bytes of the timestamp, zero-padded. *)
Definition echo_payload (now : list byte) : list byte :=
  firstn 56 now ++ repeat Byte.x00 (56 - length (firstn 56 now)).

Definition echo_request_unsummed (id seq : Z) (now : list byte) : list byte :=
  [z2b 8; z2b 0; Byte.x00; Byte.x00] ++
  network_order (id mod 65536) ++ network_order (seq mod 65536) ++
  echo_payload now.

(** ** Section 3 and 4.4: a captured frame and the filter's checks

    A field of a frame exists only when its bytes lie inside the frame. *)

Definition field8 (frame : list byte) (off : nat) : option Z :=
  option_map b2z (nth_error frame off).

(** A 16-bit field, in network byte order. *)
Definition field16 (frame : list byte) (off : nat) : option Z :=
  match field8 frame off, field8 frame (S off) with
  | Some hi, Some lo => Some (256 * hi + lo)
  | _, _ => None
  end.

(** Header length = header-length-field x 4. *)
Definition ipv4_header_length (frame : list byte) : option Z :=
  option_map (fun v => v mod 16 * 4) (field8 frame 14).

(** The ICMP header comes immediately after the IPv4 header. *)
Definition icmp_offset (frame : list byte) : option nat :=
  option_map (fun hl => (14 + Z.to_nat hl)%nat) (ipv4_header_length frame).

(** The frame contains the Ethernet header, the whole IPv4 header and the
    ICMP header at their computed offsets. *)
Definition contains_all_headers (frame : list byte) : bool :=
  match icmp_offset frame with
  | Some off => (off + 8 <=? length frame)%nat
  | None => false
  end.

(** The 6-byte Ethernet source-MAC field. *)
Definition source_mac (frame : list byte) : list byte := firstn 6 (skipn 6 frame).

Inductive verdict : Type :=
| Pass
| Fail
| Absent.   (* the field examined lies outside the frame *)

Definition expect (field : option Z) (ok : Z -> bool) : verdict :=
  match field with
  | Some v => if ok v then Pass else Fail
  | None => Absent
  end.

(** 1. shorter than Ethernet header + minimum IPv4 header + ICMP header *)
Definition check_length (frame : list byte) : verdict :=
  if (length frame <? 14 + 20 + 8)%nat then Fail else Pass.

(** 2. Ethernet type field is IPv4 *)
Definition check_ethertype (frame : list byte) : verdict :=
  expect (field16 frame 12) (Z.eqb 2048).

(** 3. header length at least 20 bytes *)
Definition check_header_length (frame : list byte) : verdict :=
  expect (ipv4_header_length frame) (Z.leb 20).

(** 4. IPv4 protocol field is ICMP *)
Definition check_protocol (frame : list byte) : verdict :=
  expect (field8 frame 23) (Z.eqb 1).

(** 6. ICMP type is Echo Reply and code is 0 *)
Definition check_echo_reply (frame : list byte) : verdict :=
  match icmp_offset frame with
  | Some off =>
      match expect (field8 frame off) (Z.eqb 0) with
      | Pass => expect (field8 frame (off + 1)) (Z.eqb 0)
      | v => v
      end
  | None => Absent
  end.

(** 7. ICMP id and sequence equal the expected values *)
Definition check_id (id : Z) (frame : list byte) : verdict :=
  match icmp_offset frame with
  | Some off => expect (field16 frame (off + 4)) (Z.eqb id)
  | None => Absent
  end.

Definition check_sequence (seq : Z) (frame : list byte) : verdict :=
  match icmp_offset frame with
  | Some off => expect (field16 frame (off + 6)) (Z.eqb seq)
  | None => Absent
  end.

(** A verdict that discards the frame. *)
Definition rejects (v : verdict) : bool :=
  match v with Fail => true | _ => false end.

(** The seven rejection checks, in the order of the filter. *)
Definition checks (id seq : Z) (frame : list byte) : list verdict :=
  [ check_length frame; check_ethertype frame; check_header_length frame;
    check_protocol frame; check_echo_reply frame; check_id id frame;
    check_sequence seq frame ].

Definition passes_all_checks (id seq : Z) (frame : list byte) : Prop :=
  Forall (eq Pass) (checks id seq frame).

Definition fails_a_check (id seq : Z) (frame : list byte) : Prop :=
  In Fail (checks id seq frame).

(** The frame arrives: [poll] returns 1 and [recv] delivers it. *)
Definition arrival (frame : list byte) : event := Event 1 (RecvFrame frame).

(** The frame with the two bytes of its ICMP checksum field replaced. *)
Definition with_icmp_checksum (frame : list byte) (c0 c1 : byte) : list byte :=
  match icmp_offset frame with
  | Some off => poke frame (off + 2) [c0; c1]
  | None => frame
  end.

(** The ICMP message of a frame (from the ICMP header to the end of the
    frame) verifies when its checksum, computed as the builder does, is 0. *)
Definition icmp_checksum_verifies (e : endian) (frame : list byte) : bool :=
  match icmp_offset frame with
  | Some off => csum16 e (skipn off frame) =? 0
  | None => false
  end.

(** * The rest of the program *)

(** One turn of the carry-folding loop of [csum16], and the loop cut after
    [n] turns. *)
Definition csum16_fold_once (sum : Z) : Z := Z.land sum 65535 + Z.shiftr sum 16.

Fixpoint csum16_fold_turns (n : nat) (sum : Z) : Z :=
  match n with
  | O => sum
  | S n' => if 0 <? Z.shiftr sum 16 then csum16_fold_turns n' (csum16_fold_once sum)
            else sum
  end.

(** ** What the process gets from its environment

    The command line, the answers of the C library and of the kernel, and
    the indeterminate initial content of the local arrays of [main] and
    [wait_reply]. [sys_inet_pton] gives the return value of [inet_pton] and
    the address it writes; [sys_errmsg] is the text [perror] appends. *)
Record system : Type := System {
  sys_argv : list string;
  sys_euid : Z;
  sys_pid : Z;
  sys_inet_pton : string -> Z * list byte;
  sys_time : list byte;
  sys_errmsg : string;
  sys_socket_icmp : Z;
  sys_socket_packet : Z;
  sys_sendto : Z;
  sys_traffic : list event;
  sys_stack_pkt : list byte;
  sys_stack_buf : list byte;
  sys_stack_mac : list byte
}.

(** The system calls of [main] on descriptors, in the order they are made. *)
Inductive call : Type :=
| CallSocketIcmp (ret : Z)
| CallSocketPacket (ret : Z)
| CallSendto (fd : Z) (dst pkt : list byte) (ret : Z)
| CallWait (fd : Z)
| CallClose (fd : Z).

(** [perror(what)]. *)
Definition perror (k : system) (what : string) : string :=
  (what ++ ": " ++ sys_errmsg k ++ newline)%string.

(** ** send_icmp (utility.c, lines 78-92): return value, text written to the
    standard error, calls made. *)
Definition send_icmp (k : system) (sock : Z) (dst pkt : list byte) (len : nat)
  : Z * string * list call :=
  let w := sys_sendto k in
  let calls := [CallSendto sock dst (firstn len pkt) w] in
  if negb (w =? Z.of_nat len) then (-1, perror k "sendto", calls)
  else (0, EmptyString, calls).

(** ** open_packet_socket (utility.c, lines 97-102) *)
Definition open_packet_socket (k : system) : Z * string * list call :=
  let fd := sys_socket_packet k in
  let calls := [CallSocketPacket fd] in
  if fd <? 0 then (-1, perror k "socket(AF_PACKET)", calls)
  else (fd, EmptyString, calls).

(** ** main (utility.c, lines 159-207) *)
Record run : Type := Run {
  run_status : exit_status;
  run_stdout : string;
  run_stderr : string;
  run_calls : list call
}.

Definition main (e : endian) (k : system) : run :=
  let argc := Z.of_nat (length (sys_argv k)) in
  if negb (argc =? 2) then
    Run EXIT_FAILURE EmptyString
      ("Usage: " ++ nth 0 (sys_argv k) EmptyString ++ " <IPv4-address>" ++ newline)%string []
  else if negb (sys_euid k =? 0) then
    Run EXIT_FAILURE EmptyString ("Need root (CAP_NET_RAW)" ++ newline)%string []
  else
    let (r, dst_ip) := sys_inet_pton k (nth 1 (sys_argv k) EmptyString) in
    if negb (r =? 1) then Run EXIT_FAILURE EmptyString (perror k "inet_pton") []
    else
      let pid16 := Z.land (sys_pid k) 65535 in
      let (b, icmp_pkt) := build_icmp_echo e (Some (sys_stack_pkt k)) pid16 1 (sys_time k) in
      if b <? 0 then
        Run EXIT_FAILURE EmptyString ("build_icmp_echo failed" ++ newline)%string []
      else
        let icmp_pkt := match icmp_pkt with Some p => p | None => sys_stack_pkt k end in
        let s_icmp := sys_socket_icmp k in
        if s_icmp <? 0 then
          Run EXIT_FAILURE EmptyString (perror k "socket raw icmp") [CallSocketIcmp s_icmp]
        else
          let '(s_pkt, err1, calls1) := open_packet_socket k in
          if s_pkt <? 0 then
            Run EXIT_FAILURE EmptyString err1
              (CallSocketIcmp s_icmp :: calls1 ++ [CallClose s_icmp])
          else
            let '(sent, err2, calls2) := send_icmp k s_icmp dst_ip icmp_pkt 64 in
            if sent <? 0 then
              Run EXIT_FAILURE EmptyString (err1 ++ err2)%string
                (CallSocketIcmp s_icmp :: calls1 ++ calls2
                 ++ [CallClose s_icmp; CallClose s_pkt])
            else
              let rep := main_wait_and_report e pid16 (sys_traffic k)
                           (sys_stack_buf k) (sys_stack_mac k) in
              Run (status rep) (to_stdout rep) (err1 ++ err2 ++ to_stderr rep)%string
                (CallSocketIcmp s_icmp :: calls1 ++ calls2
                 ++ [CallWait s_pkt; CallClose s_icmp; CallClose s_pkt]).

(** ** Descriptor discipline of a sequence of calls

    [open] lists the descriptors that are open. A call that returns a
    descriptor opens it; [sendto], the wait and [close] need an open
    descriptor; [close] releases it; at the end nothing is left open. *)
Fixpoint remove_one (fd : Z) (open : list Z) : list Z :=
  match open with
  | [] => []
  | x :: open' => if x =? fd then open' else x :: remove_one fd open'
  end.

Definition is_open (fd : Z) (open : list Z) : bool := existsb (Z.eqb fd) open.

Fixpoint descriptors_ok (calls : list call) (open : list Z) : bool :=
  match calls with
  | [] => match open with [] => true | _ => false end
  | CallSocketIcmp ret :: calls' | CallSocketPacket ret :: calls' =>
      descriptors_ok calls' (if ret <? 0 then open else ret :: open)
  | CallSendto fd _ _ _ :: calls' | CallWait fd :: calls' =>
      is_open fd open && descriptors_ok calls' open
  | CallClose fd :: calls' =>
      is_open fd open && descriptors_ok calls' (remove_one fd open)
  end.

(** The packets handed to [sendto]. *)
Fixpoint packets_sent (calls : list call) : list (list byte) :=
  match calls with
  | [] => []
  | CallSendto _ _ pkt _ :: calls' => pkt :: packets_sent calls'
  | _ :: calls' => packets_sent calls'
  end.

(** ** Reading back the line written by [print_mac] *)

Fixpoint index_of (c : ascii) (l : list ascii) (i : Z) : option Z :=
  match l with
  | [] => None
  | x :: l' => if Ascii.eqb x c then Some i else index_of c l' (i + 1)
  end.

Definition hex_value (c : ascii) : option Z :=
  index_of c (list_ascii_of_string "0123456789abcdef") 0.

Definition parse_octet (h l : ascii) : option byte :=
  match hex_value h, hex_value l with
  | Some a, Some b => Some (z2b (16 * a + b))
  | _, _ => None
  end.

(** Octets of two hexadecimal digits separated by colons, ended by a
    newline. *)
Fixpoint parse_octets (cs : list ascii) : option (list byte) :=
  match cs with
  | h :: l :: sep :: rest =>
      match parse_octet h l with
      | Some b =>
          if Ascii.eqb sep ":" then option_map (cons b) (parse_octets rest)
          else if Ascii.eqb sep (ascii_of_nat 10) then
                 match rest with [] => Some [b] | _ => None end
               else None
      | None => None
      end
  | _ => None
  end.

Definition parse_mac (s : string) : option (list byte) :=
  match parse_octets (list_ascii_of_string s) with
  | Some m => if (length m =? 6)%nat then Some m else None
  | None => None
  end.

(** ** Traffic that is not the reply: a frame that fails a check, or a
    failed [recv]. *)
Definition noise (id seq : Z) (ev : event) : Prop :=
  0 < poll_rc ev /\
  match rx ev with
  | RecvError => True
  | RecvFrame frame => fails_a_check id seq frame
  end.

(** The local buffer after the [recv] of an event. *)
Definition buffer_after (ev : event) (buf : list byte) : list byte :=
  snd (recv (rx ev) buf 2048).

(** The bytes [off .. off + len - 1] of a frame are outside every field the
    filter examines or reports when they lie in the destination MAC, in the
    IPv4 header between the first byte and the protocol (type of service,
    total length, identification, fragment, time to live), or in the IPv4
    header checksum and addresses. *)
Definition unexamined (off len : nat) : Prop :=
  (off + len <= 6 \/ (15 <= off /\ off + len <= 23) \/ (24 <= off /\ off + len <= 34))%nat.

(** Nothing stops [main] before the wait: two arguments, root, an address
    that parses, both sockets opened, the 64 bytes written by [sendto]. *)
Definition main_ready (k : system) : Prop :=
  length (sys_argv k) = 2%nat /\ sys_euid k = 0 /\
  fst (sys_inet_pton k (nth 1 (sys_argv k) EmptyString)) = 1 /\
  0 <= sys_socket_icmp k /\ 0 <= sys_socket_packet k /\ sys_sendto k = 64.


(** A run of the program as root, with both sockets opened, in which an
    unrelated frame arrives before the reply. *)
Definition example_system : system :=
  {| sys_argv := ["utility"%string; "10.0.0.2"%string];
     sys_euid := 0;
     sys_pid := 66770;
     sys_inet_pton := fun _ => (1, [Byte.x0a; Byte.x00; Byte.x00; Byte.x02]);
     sys_time := repeat Byte.x2a 8;
     sys_errmsg := "Operation not permitted"%string;
     sys_socket_icmp := 3;
     sys_socket_packet := 4;
     sys_sendto := 64;
     sys_traffic := [arrival decoy_frame; arrival example_reply];
     sys_stack_pkt := repeat Byte.xff 64;
     sys_stack_buf := repeat Byte.xff 2048;
     sys_stack_mac := repeat Byte.xff 6 |}.

(** * Proofs *)

(** Tactics for the chain of tests of [wait_reply_filter]: skip a test that
    is not the one under study, or decide the test with its lemma. *)
Ltac next_test :=
  match goal with
  | |- (if ?c then false else _) = false => destruct c; [reflexivity |]
  end.

Ltac this_test lem H :=
  rewrite lem by (try assumption; rewrite H; discriminate);
  rewrite H; cbn [rejects].

(** Case analysis on the tests of [main], in their order. *)
Ltac main_branches e k :=
  unfold main, open_packet_socket, send_icmp; cbv zeta;
  destruct (Z.eqb_spec (Z.of_nat (length (sys_argv k))) 2) as [Hargc | Hargc];
    cbn [negb];
    [ destruct (Z.eqb_spec (sys_euid k) 0) as [Heuid | Heuid]; cbn [negb];
      [ destruct (sys_inet_pton k (nth 1 (sys_argv k) EmptyString)) as [r dst_ip] eqn:Hpton;
        destruct (Z.eqb_spec r 1) as [Hr | Hr]; cbn [negb];
        [ destruct (build_icmp_echo e (Some (sys_stack_pkt k)) _ 1 (sys_time k))
            as [b pkt] eqn:Hbuild;
          assert (Hb : b = 64) by exact (eq_sym (f_equal fst Hbuild));
          destruct (Z.ltb_spec b 0) as [Hbneg | _]; [exfalso; lia |];
          destruct (Z.ltb_spec (sys_socket_icmp k) 0) as [Hicmp | Hicmp];
          [ | destruct (Z.ltb_spec (sys_socket_packet k) 0) as [Hpkt | Hpkt];
              [ replace (-1 <? 0) with true by reflexivity
              | destruct (Z.ltb_spec (sys_socket_packet k) 0) as [Hpkt' | _];
                [exfalso; lia |];
                destruct (Z.eqb_spec (sys_sendto k) (Z.of_nat 64)) as [Hsend | Hsend];
                cbn [negb];
                [ replace (0 <? 0) with false by reflexivity
                | replace (-1 <? 0) with true by reflexivity ] ] ]
        | ]
      | ]
    | ].

(** ** Bytes and 16-bit memory accesses: arithmetic facts *)

Lemma b2z_range (b : byte) : 0 <= b2z b < 256.
Proof.
  unfold b2z. pose proof (Byte.to_N_bounded b) as H. lia.
Qed.

Lemma b2z_z2b (z : Z) : b2z (z2b z) = z mod 256.
Proof.
  unfold b2z, z2b. pose proof (Z.mod_pos_bound z 256 ltac:(lia)) as Hm.
  destruct (Byte.of_N (Z.to_N (z mod 256))) as [b|] eqn:E.
  - apply Byte.to_of_N in E. rewrite E. lia.
  - apply Byte.of_N_None_iff in E. lia.
Qed.

Lemma z2b_b2z (b : byte) : z2b (b2z b) = b.
Proof.
  unfold z2b, b2z. pose proof (b2z_range b) as H. unfold b2z in H.
  rewrite Z.mod_small by lia. rewrite N2Z.id, Byte.of_to_N. reflexivity.
Qed.

Lemma lor_shiftl_add (lo hi n : Z) :
  0 <= n -> 0 <= lo < 2 ^ n -> Z.lor lo (Z.shiftl hi n) = lo + hi * 2 ^ n.
Proof.
  intros Hn Hlo.
  assert (Hdisj : Z.land lo (Z.shiftl hi n) = 0).
  { apply Z.bits_inj'; intros k Hk. rewrite Z.land_spec, Z.bits_0.
    destruct (Z.lt_ge_cases k n) as [Hlt | Hge].
    - rewrite (Z.shiftl_spec_low _ _ _ Hlt). apply andb_false_r.
    - replace lo with (lo mod 2 ^ n) by (apply Z.mod_small; lia).
      rewrite Z.mod_pow2_bits_high by lia. reflexivity. }
  rewrite <- Z.lxor_lor, <- Z.add_nocarry_lxor by assumption.
  rewrite Z.shiftl_mul_pow2 by lia. reflexivity.
Qed.

Lemma load16_little (b0 b1 : byte) : load16 Little b0 b1 = b2z b0 + 256 * b2z b1.
Proof.
  unfold load16. rewrite lor_shiftl_add; [change (2 ^ 8) with 256; lia | lia |].
  apply b2z_range.
Qed.

Lemma load16_big (b0 b1 : byte) : load16 Big b0 b1 = 256 * b2z b0 + b2z b1.
Proof.
  unfold load16. rewrite Z.lor_comm, lor_shiftl_add; [change (2 ^ 8) with 256; lia | lia |].
  apply b2z_range.
Qed.

Lemma load16_range (e : endian) (b0 b1 : byte) : 0 <= load16 e b0 b1 < 65536.
Proof.
  pose proof (b2z_range b0). pose proof (b2z_range b1).
  destruct e; [rewrite load16_little | rewrite load16_big]; lia.
Qed.


(** ** The accumulator of [csum16] *)

Lemma byte_pairs_ind (P : list byte -> Prop) :
  P [] -> (forall b, P [b]) ->
  (forall b0 b1 l, P l -> P (b0 :: b1 :: l)) ->
  forall l, P l.
Proof.
  intros Hnil Hone Hstep l.
  assert (H : P l /\ forall b, P (b :: l)); [| apply H].
  induction l as [| a l [IH1 IH2]]; split; auto.
Qed.

Lemma load16_word_value (e : endian) (b0 b1 : byte) :
  load16 e b0 b1 = word_value e b0 b1.
Proof. destruct e; [apply load16_little | apply load16_big]. Qed.

Lemma trailing_word_cons2 (b0 b1 : byte) (l : list byte) :
  trailing_word (b0 :: b1 :: l) = trailing_word l.
Proof.
  unfold trailing_word. change (length (b0 :: b1 :: l)) with (S (S (length l))).
  rewrite Nat.odd_succ_succ. destruct l as [| c l]; reflexivity.
Qed.

Lemma add32_range (s x : Z) : 0 <= add32 s x < 2 ^ 32.
Proof. unfold add32. apply Z.mod_pos_bound. lia. Qed.

Lemma csum16_accumulates (e : endian) (data : list byte) :
  forall s, 0 <= s < 2 ^ 32 ->
  csum16_tail (csum16_words e data s) = (s + word_sum e data) mod 2 ^ 32.
Proof.
  induction data as [| b | b0 b1 l IH] using byte_pairs_ind; intros s Hs.
  - cbn. rewrite Z.mod_small; lia.
  - reflexivity.
  - cbn [csum16_words]. rewrite IH by apply add32_range.
    unfold word_sum. cbn [complete_words fold_right].
    rewrite trailing_word_cons2, load16_word_value. unfold add32.
    rewrite Z.add_mod_idemp_l by lia. f_equal. lia.
Qed.

Lemma csum16_accumulator (e : endian) (data : list byte) :
  csum16_tail (csum16_words e data 0) = accumulator32 e data.
Proof. rewrite csum16_accumulates by lia. reflexivity. Qed.

Lemma accumulator32_range (e : endian) (data : list byte) :
  0 <= accumulator32 e data < 2 ^ 32.
Proof. apply Z.mod_pos_bound. lia. Qed.

(** ** Folding the carries *)

Lemma shiftr16_div (s : Z) : Z.shiftr s 16 = s / 65536.
Proof. rewrite Z.shiftr_div_pow2 by lia. reflexivity. Qed.

Lemma land16_mod (s : Z) : Z.land s 65535 = s mod 65536.
Proof. change 65535 with (Z.ones 16). rewrite Z.land_ones by lia. reflexivity. Qed.

Lemma csum16_fold_step (s : Z) :
  csum16_fold s =
  if Z_lt_dec 0 (Z.shiftr s 16)
  then csum16_fold (Z.land s 65535 + Z.shiftr s 16) else s.
Proof.
  rewrite csum16_fold_equation_1 at 1.
  destruct (Z_lt_dec 0 (Z.shiftr s 16)); reflexivity.
Qed.

Lemma csum16_fold_carries (s : Z) : 0 <= s -> carries_folded s (csum16_fold s).
Proof.
  revert s. apply (Zlt_0_ind (fun s => carries_folded s (csum16_fold s))).
  intros s IH Hs. rewrite csum16_fold_step.
  pose proof (Z.mod_pos_bound s 65536 ltac:(lia)) as Hm.
  pose proof (Z.div_pos s 65536 Hs ltac:(lia)) as Hd.
  pose proof (Z.div_mod s 65536 ltac:(lia)) as Hdm.
  rewrite land16_mod, shiftr16_div.
  destruct (Z_lt_dec 0 (s / 65536)) as [Hhi | Hhi].
  - apply fold_one_carry; [lia |]. apply IH. lia.
  - apply no_carry_remains. lia.
Qed.


Lemma ones_normal_unique (s r : Z) :
  0 <= s -> 0 <= r <= 65535 -> (r = 0 <-> s = 0) ->
  (exists k, s = r + 65535 * k) -> r = ones_normal s.
Proof.
  intros Hs Hr Hz [k Hk]. unfold ones_normal.
  destruct (Z.eqb_spec s 0) as [E | E]; [apply Hz; assumption |].
  assert (Hr1 : r <> 0) by (intros E0; apply E, Hz, E0).
  assert (Hm : (s - 1) mod 65535 = r - 1); [| lia].
  symmetry. apply (Z.mod_unique_pos _ _ k); lia.
Qed.

Lemma carries_folded_normal (s r : Z) :
  0 <= s -> carries_folded s r -> r = ones_normal s.
Proof.
  intros Hs H.
  assert (G : 0 <= r <= 65535 /\ (r = 0 <-> s = 0) /\ exists k, s = r + 65535 * k).
  { induction H as [s Hz | s r Hnz H IH].
    - assert (s < 65536) by (apply Z.div_small_iff in Hz; lia).
      repeat split; try lia. exists 0. lia.
    - pose proof (Z.mod_pos_bound s 65536 ltac:(lia)) as Hm.
      pose proof (Z.div_pos s 65536 Hs ltac:(lia)) as Hd.
      pose proof (Z.div_mod s 65536 ltac:(lia)) as Hdm.
      destruct IH as (Hr & Hz & k & Hk); [lia |].
      repeat split; try lia. exists (k + s / 65536). lia. }
  destruct G as (Hr & Hz & Hk). apply ones_normal_unique; assumption.
Qed.

Lemma csum16_fold_normal (s : Z) : 0 <= s -> csum16_fold s = ones_normal s.
Proof.
  intros Hs. apply carries_folded_normal, csum16_fold_carries; assumption.
Qed.

Lemma ones_normal_range (s : Z) : 0 <= ones_normal s <= 65535.
Proof.
  unfold ones_normal. destruct (s =? 0); [lia |].
  pose proof (Z.mod_pos_bound (s - 1) 65535 ltac:(lia)). lia.
Qed.

Lemma not16_complement (s : Z) : not16 s = complement16 s.
Proof.
  unfold not16, complement16. rewrite land16_mod.
  replace (Z.lnot s) with (- s - 1) by (unfold Z.lnot; lia).
  pose proof (Z.mod_pos_bound s 65536 ltac:(lia)) as Hm.
  pose proof (Z.div_mod s 65536 ltac:(lia)) as Hdm.
  symmetry. apply (Z.mod_unique_pos _ _ (- (s / 65536) - 1)); lia.
Qed.

(** ** Ones'-complement sums and byte order *)

Lemma ones_normal_decompose (s : Z) :
  0 <= s ->
  exists k, 0 <= k /\ s = ones_normal s + 65535 * k /\ (ones_normal s = 0 <-> s = 0).
Proof.
  intros Hs. unfold ones_normal. destruct (Z.eqb_spec s 0) as [E | E].
  - exists 0. lia.
  - pose proof (Z.mod_pos_bound (s - 1) 65535 ltac:(lia)) as Hm.
    pose proof (Z.div_mod (s - 1) 65535 ltac:(lia)) as Hdm.
    pose proof (Z.div_pos (s - 1) 65535 ltac:(lia) ltac:(lia)) as Hd.
    exists ((s - 1) / 65535). lia.
Qed.

Lemma ones_add_normal (a w : Z) :
  0 <= a -> 0 <= w <= 65535 ->
  ones_add (ones_normal a) w = ones_normal (a + w).
Proof.
  intros Ha Hw. destruct (ones_normal_decompose a Ha) as (k & Hk & Hak & Hz).
  pose proof (ones_normal_range a) as Hr.
  apply ones_normal_unique; unfold ones_add; cbv zeta;
    destruct (Z.ltb_spec (ones_normal a + w) 65536); try lia.
  - exists k. lia.
  - exists (k + 1). lia.
Qed.

Lemma fold_ones_add_normal (ws : list Z) :
  Forall (fun w => 0 <= w <= 65535) ws ->
  forall a, 0 <= a ->
  fold_left ones_add ws (ones_normal a) = ones_normal (a + fold_right Z.add 0 ws).
Proof.
  induction 1 as [| w ws Hw Hws IH]; intros a Ha; cbn [fold_left fold_right].
  - f_equal. lia.
  - rewrite ones_add_normal, IH by lia. f_equal. lia.
Qed.

Lemma network_words_range (data : list byte) :
  Forall (fun w => 0 <= w <= 65535) (network_words data).
Proof.
  induction data as [| b | b0 b1 l IH] using byte_pairs_ind; cbn [network_words].
  - constructor.
  - pose proof (b2z_range b). repeat constructor; lia.
  - pose proof (b2z_range b0). pose proof (b2z_range b1). constructor; [lia | exact IH].
Qed.

Lemma internet_checksum_normal (data : list byte) :
  internet_checksum data = 65535 - ones_normal (fold_right Z.add 0 (network_words data)).
Proof.
  unfold internet_checksum. change 0 with (ones_normal 0) at 1.
  rewrite fold_ones_add_normal by (try apply network_words_range; lia).
  reflexivity.
Qed.

(** The sum of the words of a buffer, before the reduction modulo 2^32. *)
Lemma word_sum_bound (e : endian) (data : list byte) :
  0 <= word_sum e data /\ 2 * word_sum e data <= 65535 * Z.of_nat (length data).
Proof.
  unfold word_sum.
  induction data as [| b | b0 b1 l IH] using byte_pairs_ind.
  - cbn. lia.
  - pose proof (b2z_range b). change (trailing_word [b]) with (b2z b).
    cbn [complete_words fold_right length]. lia.
  - rewrite trailing_word_cons2. cbn [complete_words fold_right length].
    pose proof (load16_range e b0 b1) as Hw. rewrite load16_word_value in Hw. lia.
Qed.

Lemma accumulator32_exact (e : endian) (data : list byte) :
  Z.of_nat (length data) <= 131072 ->
  accumulator32 e data = word_sum e data.
Proof.
  intros Hlen. unfold accumulator32.
  pose proof (word_sum_bound e data). apply Z.mod_small. lia.
Qed.

(** Swapping the bytes of every word multiplies the sum by 256 modulo 65535. *)
Lemma little_words_swapped (data : list byte) :
  exists k k', 0 <= k /\ 0 <= k' /\
    256 * word_sum Little data = fold_right Z.add 0 (network_words data) + 65535 * k /\
    256 * fold_right Z.add 0 (network_words data) = word_sum Little data + 65535 * k'.
Proof.
  unfold word_sum.
  induction data as [| b | b0 b1 l IH] using byte_pairs_ind.
  - exists 0, 0. cbn. lia.
  - pose proof (b2z_range b). exists 0, (b2z b).
    change (trailing_word [b]) with (b2z b).
    cbn [complete_words network_words fold_right]. lia.
  - destruct IH as (k & k' & Hk & Hk' & H1 & H2).
    pose proof (b2z_range b0). pose proof (b2z_range b1).
    rewrite trailing_word_cons2. cbn [complete_words network_words fold_right word_value].
    exists (k + b2z b1), (k' + b2z b0). lia.
Qed.

Lemma big_words_even (data : list byte) :
  Nat.even (length data) = true ->
  word_sum Big data = fold_right Z.add 0 (network_words data).
Proof.
  unfold word_sum.
  induction data as [| b | b0 b1 l IH] using byte_pairs_ind; intros Hev.
  - reflexivity.
  - discriminate.
  - rewrite trailing_word_cons2. cbn [complete_words network_words fold_right word_value].
    change (length (b0 :: b1 :: l)) with (S (S (length l))) in Hev.
    rewrite Nat.even_succ_succ in Hev. rewrite <- IH by assumption. lia.
Qed.

Lemma z2b_mod (a b : Z) : a mod 256 = b mod 256 -> z2b a = z2b b.
Proof. intros H. unfold z2b. rewrite H. reflexivity. Qed.

Lemma z2b_mod256 (v : Z) : z2b (v mod 256) = z2b v.
Proof. apply z2b_mod, Zmod_mod. Qed.

Lemma csum16_normal (e : endian) (data : list byte) :
  csum16 e data = 65535 - ones_normal (accumulator32 e data).
Proof.
  unfold csum16. cbv zeta. rewrite csum16_accumulator.
  rewrite csum16_fold_normal by apply accumulator32_range.
  rewrite not16_complement. unfold complement16.
  pose proof (ones_normal_range (accumulator32 e data)).
  rewrite Z.mod_small; lia.
Qed.

(** ** Writing into a buffer *)

Lemma poke_app_exact (a b c bs : list byte) (off : nat) :
  length a = off -> length b = length bs ->
  poke (a ++ b ++ c) off bs = a ++ bs ++ c.
Proof.
  intros Ha Hb. unfold poke. subst off.
  rewrite firstn_app, Nat.sub_diag, firstn_all. cbn [firstn]. rewrite app_nil_r.
  rewrite skipn_app, skipn_all2 by lia. cbn [app].
  replace (length a + length bs - length a)%nat with (length b) by lia.
  rewrite skipn_app, skipn_all, Nat.sub_diag. reflexivity.
Qed.

Lemma poke_length (buf bs : list byte) (off : nat) :
  (off + length bs <= length buf)%nat -> length (poke buf off bs) = length buf.
Proof.
  intros H. unfold poke. rewrite !length_app, length_firstn, length_skipn. lia.
Qed.

Lemma store16_shape (e : endian) (v : Z) : exists c0 c1, store16 e v = [c0; c1].
Proof. destruct e; cbn; eauto. Qed.

Lemma byte_split (v : Z) :
  0 <= v < 65536 -> 0 <= v / 256 < 256 /\ 0 <= v mod 256 < 256 /\ v = 256 * (v / 256) + v mod 256.
Proof.
  intros Hv. pose proof (Z.div_mod v 256 ltac:(lia)).
  pose proof (Z.mod_pos_bound v 256 ltac:(lia)).
  assert (0 <= v / 256 < 256)
    by (split; [apply Z.div_pos; lia | apply Z.div_lt_upper_bound; lia]).
  lia.
Qed.

Lemma word_sum_store16 (e : endian) (v : Z) :
  0 <= v < 65536 -> word_sum e (store16 e v) = v.
Proof.
  intros Hv. destruct (byte_split v Hv) as (Hh & Hl & Hsplit).
  unfold word_sum, trailing_word.
  destruct e; cbn [store16 complete_words fold_right word_value length Nat.odd];
    rewrite !b2z_z2b, Z.shiftr_div_pow2 by lia; change (2 ^ 8) with 256;
    rewrite (Z.mod_small (v / 256)) by lia; change (Nat.odd 2) with false;
    cbv iota; lia.
Qed.

Lemma word_sum_app (e : endian) (pre l : list byte) :
  Nat.even (length pre) = true ->
  word_sum e (pre ++ l) = word_sum e pre + word_sum e l.
Proof.
  induction pre as [| b | b0 b1 pre IH] using byte_pairs_ind; intros Hev.
  - cbn. reflexivity.
  - discriminate.
  - change (length (b0 :: b1 :: pre)) with (S (S (length pre))) in Hev.
    rewrite Nat.even_succ_succ in Hev. specialize (IH Hev).
    unfold word_sum in *. cbn [app complete_words fold_right].
    rewrite !trailing_word_cons2. lia.
Qed.

(** ** The verification identity *)

Lemma field_split (d : list byte) (off : nat) (x y : byte) :
  firstn 2 (skipn off d) = [x; y] ->
  d = firstn off d ++ [x; y] ++ skipn (off + 2) d /\ length (firstn off d) = off.
Proof.
  intros H. assert (Hlen : (off + 2 <= length d)%nat).
  { apply (f_equal (@length byte)) in H. rewrite length_firstn, length_skipn in H.
    cbn [length] in H. lia. }
  split; [| rewrite length_firstn; lia].
  rewrite <- H, Nat.add_comm, <- skipn_skipn, firstn_skipn, firstn_skipn. reflexivity.
Qed.

Lemma stamped_sum (e : endian) (d : list byte) (off : nat) (c : Z) :
  Nat.even off = true -> firstn 2 (skipn off d) = [Byte.x00; Byte.x00] ->
  0 <= c < 65536 ->
  word_sum e (poke d off (store16 e c)) = word_sum e d + c /\
  length (poke d off (store16 e c)) = length d.
Proof.
  intros Hev Hz Hc. destruct (field_split d off _ _ Hz) as [Hd Hpre].
  destruct (store16_shape e c) as (c0 & c1 & Hst).
  set (pre := firstn off d) in *. set (post := skipn (off + 2) d) in *.
  assert (Hw : word_sum e [c0; c1] = c) by (rewrite <- Hst; apply word_sum_store16, Hc).
  rewrite Hst, Hd, poke_app_exact by (cbn; lia).
  split; [| rewrite !length_app; reflexivity].
  rewrite !(word_sum_app e pre) by (rewrite Hpre; exact Hev).
  rewrite !(word_sum_app e [_; _]) by reflexivity. rewrite Hw.
  replace (word_sum e [Byte.x00; Byte.x00]) with 0 by (destruct e; reflexivity). lia.
Qed.

Lemma csum16_range (e : endian) (data : list byte) : 0 <= csum16 e data < 65536.
Proof.
  rewrite csum16_normal. pose proof (ones_normal_range (accumulator32 e data)). lia.
Qed.

Lemma csum16_stamped (e : endian) (d : list byte) (off : nat) :
  Nat.even off = true -> firstn 2 (skipn off d) = [Byte.x00; Byte.x00] ->
  let d' := poke d off (store16 e (csum16 e d)) in
  csum16_fold (csum16_tail (csum16_words e d' 0)) = 65535 /\ csum16 e d' = 0.
Proof.
  intros Hev Hz d'.
  destruct (stamped_sum e d off (csum16 e d) Hev Hz (csum16_range e d)) as [Hsum Hl].
  fold d' in Hsum, Hl.
  pose proof (accumulator32_range e d) as RA.
  pose proof (csum16_normal e d) as Hc.
  set (A := accumulator32 e d) in *.
  change (2 ^ 32) with 4294967296 in RA.
  destruct (ones_normal_decompose A (proj1 RA)) as (k & Hk & HAk & HAz).
  pose proof (ones_normal_range A) as Rr.
  (* the stamped accumulator is a multiple of 65535 below 2^32: it cannot wrap *)
  assert (Hacc : accumulator32 e d' = A + csum16 e d).
  { unfold accumulator32 at 1. rewrite Hsum, <- Z.add_mod_idemp_l by lia.
    fold (accumulator32 e d). fold A.
    apply Z.mod_small. change (2 ^ 32) with 4294967296. lia. }
  assert (Hfold : ones_normal (accumulator32 e d') = 65535).
  { rewrite Hacc, Hc. symmetry. apply ones_normal_unique; try lia. exists k. lia. }
  split.
  - rewrite csum16_accumulator, csum16_fold_normal by apply accumulator32_range.
    exact Hfold.
  - rewrite csum16_normal, Hfold. reflexivity.
Qed.

(** ** The packet built by [build_icmp_echo] *)

Lemma store16_zero (e : endian) : store16 e 0 = [Byte.x00; Byte.x00].
Proof. destruct e; reflexivity. Qed.

Lemma store16_htons (e : endian) (v : Z) :
  store16 e (htons e v) = network_order (v mod 65536).
Proof.
  pose proof (Z.mod_pos_bound v 256 ltac:(lia)) as Hc.
  pose proof (Z.div_mod v 256 ltac:(lia)) as Hv.
  pose proof (Z.mod_pos_bound (v / 256) 256 ltac:(lia)) as Hb.
  pose proof (Z.div_mod (v / 256) 256 ltac:(lia)) as Hu.
  set (c := v mod 256) in *. set (b := (v / 256) mod 256) in *.
  set (a := v / 256 / 256) in *.
  assert (Hm : v mod 65536 = 256 * b + c)
    by (symmetry; apply (Z.mod_unique_pos v 65536 a); lia).
  assert (Hm1 : (256 * b + c) / 256 = b)
    by (symmetry; apply (Z.div_unique_pos _ 256 b c); lia).
  assert (Hm2 : (256 * b + c) mod 256 = c)
    by (symmetry; apply (Z.mod_unique_pos _ 256 b c); lia).
  unfold network_order. rewrite Hm, Hm1, Hm2.
  destruct e; unfold store16, htons.
  - change 255 with (Z.ones 8). rewrite !Z.land_ones, !Z.shiftr_div_pow2 by lia.
    rewrite Z.lor_comm, lor_shiftl_add by (change (2 ^ 8) with 256 in *; lia).
    change (2 ^ 8) with 256. fold c b.
    replace ((b + c * 256) / 256) with c
      by (apply (Z.div_unique_pos _ 256 c b); lia).
    f_equal. apply z2b_mod. rewrite Z.mod_add by lia. reflexivity.
  - rewrite land16_mod, Hm, Z.shiftr_div_pow2 by lia. change (2 ^ 8) with 256.
    rewrite Hm1.
    replace (z2b (256 * b + c)) with (z2b c)
      by (apply z2b_mod; rewrite Hm2; apply Z.mod_small; lia).
    reflexivity.
Qed.

Lemma echo_payload_length (now : list byte) : length (echo_payload now) = 56%nat.
Proof.
  unfold echo_payload. rewrite length_app, repeat_length, length_firstn. lia.
Qed.

Lemma poke_cons (b : byte) (l bs : list byte) (off : nat) :
  poke (b :: l) (S off) bs = b :: poke l off bs.
Proof. reflexivity. Qed.

Lemma poke_head (l b bs : list byte) :
  (length bs <= length b)%nat ->
  poke (b ++ l) 0 bs = bs ++ skipn (length bs) b ++ l.
Proof.
  intros H. unfold poke. cbn [firstn app Nat.add].
  rewrite skipn_app. replace (length bs - length b)%nat with 0%nat by lia.
  reflexivity.
Qed.

Lemma poke_head1 (x b : byte) (l : list byte) : poke (b :: l) 0 [x] = x :: l.
Proof. reflexivity. Qed.

Lemma poke_head2 (x y a b : byte) (l : list byte) :
  poke (a :: b :: l) 0 [x; y] = x :: y :: l.
Proof. reflexivity. Qed.

Lemma skipn_repeat_zero (n k : nat) :
  skipn k (repeat Byte.x00 n) = repeat Byte.x00 (n - k).
Proof.
  revert n. induction k as [| k IH]; intros [| n]; cbn; auto.
Qed.

Lemma build_icmp_echo_packet (e : endian) (buf : list byte) (id seq : Z) (now : list byte) :
  (64 <= length buf)%nat ->
  build_icmp_echo e (Some buf) id seq now =
  (64, Some (poke (echo_request_unsummed id seq now) 2
               (store16 e (csum16 e (echo_request_unsummed id seq now)))
             ++ skipn 64 buf)).
Proof.
  intros Hlen.
  assert (Hbuf : buf = firstn 8 buf ++ firstn 56 (skipn 8 buf) ++ skipn 64 buf).
  { change 64%nat with (56 + 8)%nat. rewrite <- skipn_skipn, !firstn_skipn. reflexivity. }
  assert (Hh : length (firstn 8 buf) = 8%nat) by (rewrite length_firstn; lia).
  assert (Hp : length (firstn 56 (skipn 8 buf)) = 56%nat)
    by (rewrite length_firstn, length_skipn; lia).
  remember (skipn 64 buf) as r eqn:Er.
  remember (firstn 56 (skipn 8 buf)) as p eqn:Ep.
  remember (firstn 8 buf) as h eqn:Eh.
  clear Er Ep Eh Hlen. subst buf.
  do 9 (try destruct h as [| ? h]); try discriminate Hh. clear Hh.
  unfold build_icmp_echo, echo_request_unsummed, network_order.
  unfold off_icmp_type, off_icmp_code, off_icmp_checksum, off_icmp_id,
    off_icmp_sequence, sizeof_icmphdr, ICMP_ECHO.
  cbv zeta. rewrite store16_zero, !store16_htons. unfold network_order.
  change (64 - 8)%nat with 56%nat.
  replace (if (56 <? length now)%nat then 56%nat else length now)
    with (Nat.min 56 (length now))
    by (destruct (Nat.ltb_spec 56 (length now)); lia).
  replace (firstn (Nat.min 56 (length now)) now) with (firstn 56 now)
    by (destruct (Nat.le_ge_cases 56 (length now));
        [rewrite Nat.min_l by lia | rewrite Nat.min_r, !firstn_all2 by lia];
        reflexivity).
  cbn [app].
  repeat (rewrite poke_cons || rewrite poke_head1 || rewrite poke_head2).
  rewrite (poke_head r p) by (rewrite repeat_length; lia).
  rewrite repeat_length, (skipn_all2 p) by lia. cbn [app].
  rewrite ?poke_cons.
  rewrite (poke_head r (repeat Byte.x00 56)) by (rewrite repeat_length, length_firstn; lia).
  rewrite skipn_repeat_zero. fold (echo_payload now).
  rewrite (app_assoc (firstn 56 now)). fold (echo_payload now).
  change (?a :: ?b :: ?c :: ?d :: ?f :: ?g :: ?i :: ?j :: echo_payload now ++ r)
    with ([a; b; c; d; f; g; i; j] ++ echo_payload now ++ r).
  rewrite (app_assoc _ (echo_payload now) r), firstn_app.
  replace (64 - length _)%nat with 0%nat
    by (rewrite length_app, echo_payload_length; reflexivity).
  rewrite firstn_all2 by (rewrite length_app, echo_payload_length; cbn; lia).
  cbn [firstn]. rewrite app_nil_r. cbn [app].
  destruct (store16_shape e (csum16 e
    (z2b 8 :: z2b 0 :: Byte.x00 :: Byte.x00 :: z2b (id mod 65536 / 256)
     :: z2b ((id mod 65536) mod 256) :: z2b (seq mod 65536 / 256)
     :: z2b ((seq mod 65536) mod 256) :: echo_payload now))) as (c0 & c1 & Hc).
  rewrite Hc. repeat (rewrite poke_cons || rewrite poke_head2). reflexivity.
Qed.

(** ** What [recv] leaves in the local buffer *)

Lemma poke_head_nth (buf d : list byte) (i : nat) :
  (i < length d)%nat -> nth i (poke buf 0 d) Byte.x00 = nth i d Byte.x00.
Proof. intros H. unfold poke. cbn [firstn app]. apply app_nth1, H. Qed.

Lemma field8_nth (frame : list byte) (off : nat) (v : Z) :
  field8 frame off = Some v ->
  (off < length frame)%nat /\ b2z (nth off frame Byte.x00) = v.
Proof.
  unfold field8. destruct (nth_error frame off) as [b |] eqn:E; [| discriminate].
  intros [= <-]. split.
  - apply nth_error_Some. congruence.
  - rewrite (nth_error_nth _ _ _ E). reflexivity.
Qed.

Lemma field8_range (frame : list byte) (off : nat) (v : Z) :
  field8 frame off = Some v -> 0 <= v < 256.
Proof. intros H. apply field8_nth in H as [_ <-]. apply b2z_range. Qed.

Lemma recv_nth (buf frame : list byte) (i : nat) :
  (i < length frame)%nat -> (i < 2048)%nat ->
  nth i (poke buf 0 (firstn 2048 frame)) Byte.x00 = nth i frame Byte.x00.
Proof.
  intros Hi Hn. rewrite poke_head_nth by (rewrite length_firstn; lia).
  rewrite nth_firstn. destruct (Nat.ltb_spec i 2048); [reflexivity | lia].
Qed.

Lemma recv_peek8 (buf frame : list byte) (off : nat) (v : Z) :
  field8 frame off = Some v -> (off < 2048)%nat ->
  peek8 (poke buf 0 (firstn 2048 frame)) off = v.
Proof.
  intros H Hoff. apply field8_nth in H as [Hlt <-].
  unfold peek8. rewrite recv_nth by assumption. reflexivity.
Qed.

Lemma recv_peek16 (e : endian) (buf frame : list byte) (off : nat) (v : Z) :
  field16 frame off = Some v -> (S off < 2048)%nat ->
  exists b0 b1, peek16 e (poke buf 0 (firstn 2048 frame)) off = load16 e b0 b1 /\
                v = 256 * b2z b0 + b2z b1.
Proof.
  unfold field16.
  destruct (field8 frame off) as [hi |] eqn:E0; [| discriminate].
  destruct (field8 frame (S off)) as [lo |] eqn:E1; [| discriminate].
  intros [= <-] Hoff. apply field8_nth in E0 as [H0 <-], E1 as [H1 <-].
  unfold peek16. rewrite !recv_nth by lia. eauto.
Qed.

(** ** Byte order conversions *)

Lemma htons_little (v : Z) :
  htons Little v = v mod 256 * 256 + (v / 256) mod 256.
Proof.
  unfold htons. change 255 with (Z.ones 8).
  rewrite !Z.land_ones, Z.shiftr_div_pow2 by lia. change (2 ^ 8) with 256.
  pose proof (Z.mod_pos_bound (v / 256) 256 ltac:(lia)).
  rewrite Z.lor_comm, lor_shiftl_add by (change (2 ^ 8) with 256; lia).
  change (2 ^ 8) with 256. lia.
Qed.

Lemma htons_big (v : Z) : htons Big v = v mod 65536.
Proof. apply land16_mod. Qed.

Lemma ntohs_load16 (e : endian) (b0 b1 : byte) :
  ntohs e (load16 e b0 b1) = 256 * b2z b0 + b2z b1.
Proof.
  pose proof (b2z_range b0) as H0. pose proof (b2z_range b1) as H1.
  unfold ntohs. destruct e.
  - rewrite htons_little, load16_little.
    replace ((b2z b0 + 256 * b2z b1) mod 256) with (b2z b0)
      by (apply (Z.mod_unique_pos _ 256 (b2z b1)); lia).
    replace ((b2z b0 + 256 * b2z b1) / 256) with (b2z b1)
      by (apply (Z.div_unique_pos _ 256 (b2z b1) (b2z b0)); lia).
    rewrite Z.mod_small; lia.
  - rewrite htons_big, load16_big, Z.mod_small; lia.
Qed.

Lemma load16_eqb_htons (e : endian) (b0 b1 : byte) (x : Z) :
  0 <= x < 65536 ->
  (load16 e b0 b1 =? htons e x) = (256 * b2z b0 + b2z b1 =? x).
Proof.
  intros Hx. pose proof (b2z_range b0) as H0. pose proof (b2z_range b1) as H1.
  destruct (byte_split x Hx) as (Hh & Hl & Hsplit).
  destruct e.
  - rewrite htons_little, load16_little, (Z.mod_small (x / 256)) by lia.
    destruct (Z.eqb_spec (256 * b2z b0 + b2z b1) x); [apply Z.eqb_eq | apply Z.eqb_neq]; lia.
  - rewrite htons_big, load16_big, Z.mod_small by lia. reflexivity.
Qed.

(** ** The tests of the filter, read on the frame just received *)

Lemma expect_present (field : option Z) (ok : Z -> bool) :
  expect field ok <> Absent ->
  exists x, field = Some x /\ rejects (expect field ok) = negb (ok x).
Proof.
  unfold expect. destruct field as [x |]; [| contradiction].
  intros _. exists x. split; [reflexivity |]. destruct (ok x); reflexivity.
Qed.

Lemma filter_length (frame : list byte) :
  (Z.of_nat (length (firstn 2048 frame))
     <? Z.of_nat (sizeof_ether_header + sizeof_iphdr + sizeof_icmphdr))
  = rejects (check_length frame).
Proof.
  unfold check_length, sizeof_ether_header, sizeof_iphdr, sizeof_icmphdr.
  rewrite length_firstn.
  destruct (Nat.ltb_spec (length frame) (14 + 20 + 8)); cbn [rejects];
    [apply Z.ltb_lt | apply Z.ltb_ge]; lia.
Qed.

Section FilterOnFrame.

Variables (e : endian) (buf frame : list byte).

Local Abbreviation buf' := (poke buf 0 (firstn 2048 frame)).
Local Abbreviation icmp :=
  (sizeof_ether_header + Z.to_nat (Z.land (peek8 buf' sizeof_ether_header) 15 * 4))%nat.

Lemma filter_ethertype :
  check_ethertype frame <> Absent ->
  negb (ntohs e (peek16 e buf' off_ether_type) =? ETH_P_IP)
  = rejects (check_ethertype frame).
Proof.
  unfold check_ethertype. intros H.
  destruct (expect_present _ _ H) as (t & Ht & ->).
  destruct (recv_peek16 e buf frame 12 t Ht ltac:(lia)) as (b0 & b1 & Hp & ->).
  unfold off_ether_type, ETH_P_IP. rewrite Hp, ntohs_load16, Z.eqb_sym.
  reflexivity.
Qed.

Lemma filter_ip_hl (hl : Z) :
  ipv4_header_length frame = Some hl ->
  Z.land (peek8 buf' sizeof_ether_header) 15 * 4 = hl /\ 0 <= hl <= 60.
Proof.
  unfold ipv4_header_length. destruct (field8 frame 14) as [v |] eqn:E; [| discriminate].
  intros [= <-]. unfold sizeof_ether_header.
  rewrite (recv_peek8 buf frame 14 v E) by lia.
  change 15 with (Z.ones 4). rewrite Z.land_ones by lia. change (2 ^ 4) with 16.
  pose proof (Z.mod_pos_bound v 16 ltac:(lia)). lia.
Qed.

Lemma filter_header_length :
  check_header_length frame <> Absent ->
  (Z.land (peek8 buf' sizeof_ether_header) 15 * 4 <? 20)
  = rejects (check_header_length frame).
Proof.
  unfold check_header_length. intros H.
  destruct (expect_present _ _ H) as (hl & Hhl & ->).
  destruct (filter_ip_hl hl Hhl) as [-> _]. apply Z.ltb_antisym.
Qed.

Lemma filter_protocol :
  check_protocol frame <> Absent ->
  negb (peek8 buf' (sizeof_ether_header + off_ip_protocol) =? IPPROTO_ICMP)
  = rejects (check_protocol frame).
Proof.
  unfold check_protocol. intros H.
  destruct (expect_present _ _ H) as (pr & Hpr & ->).
  unfold sizeof_ether_header, off_ip_protocol, IPPROTO_ICMP.
  change (14 + 9)%nat with 23%nat.
  rewrite (recv_peek8 buf frame 23 pr Hpr) by lia. rewrite Z.eqb_sym. reflexivity.
Qed.

Lemma filter_icmp_offset (off : nat) :
  icmp_offset frame = Some off -> icmp = off /\ (off <= 74)%nat.
Proof.
  unfold icmp_offset.
  destruct (ipv4_header_length frame) as [hl |] eqn:E; [| discriminate].
  intros [= <-]. destruct (filter_ip_hl hl E) as [Hhl Hr].
  rewrite Hhl. unfold sizeof_ether_header. lia.
Qed.

Lemma filter_echo_reply :
  check_echo_reply frame <> Absent ->
  negb (peek8 buf' (icmp + off_icmp_type) =? ICMP_ECHOREPLY)
    || negb (peek8 buf' (icmp + off_icmp_code) =? 0)
  = rejects (check_echo_reply frame).
Proof.
  unfold check_echo_reply.
  destruct (icmp_offset frame) as [off |] eqn:Eo; [| contradiction].
  destruct (filter_icmp_offset off Eo) as [-> Hoff].
  unfold off_icmp_type, off_icmp_code, ICMP_ECHOREPLY. rewrite Nat.add_0_r.
  destruct (field8 frame off) as [t |] eqn:Et; [| contradiction].
  rewrite (recv_peek8 buf frame off t Et) by lia.
  cbn [expect]. destruct (Z.eqb_spec 0 t) as [<- | Hne].
  - intros H. destruct (expect_present _ _ H) as (c & Hc & ->).
    rewrite (recv_peek8 buf frame (off + 1) c Hc) by lia. rewrite (Z.eqb_sym c).
    reflexivity.
  - intros _. replace (t =? 0) with false by (symmetry; apply Z.eqb_neq; lia).
    reflexivity.
Qed.

Lemma filter_field16 (off : nat) (x : Z) :
  (off <= 80)%nat -> 0 <= x < 65536 ->
  expect (field16 frame off) (Z.eqb x) <> Absent ->
  negb (peek16 e buf' off =? htons e x) = rejects (expect (field16 frame off) (Z.eqb x)).
Proof.
  intros Hoff Hx H. destruct (expect_present _ _ H) as (v & Hv & ->).
  destruct (recv_peek16 e buf frame off v Hv ltac:(lia)) as (b0 & b1 & Hp & ->).
  rewrite Hp, load16_eqb_htons, Z.eqb_sym by assumption. reflexivity.
Qed.

Lemma filter_id (id : Z) :
  0 <= id < 65536 -> check_id id frame <> Absent ->
  negb (peek16 e buf' (icmp + off_icmp_id) =? htons e id) = rejects (check_id id frame).
Proof.
  unfold check_id. intros Hid.
  destruct (icmp_offset frame) as [off |] eqn:Eo; [| contradiction].
  destruct (filter_icmp_offset off Eo) as [<- Hoff].
  apply filter_field16; [unfold off_icmp_id; lia | assumption].
Qed.

Lemma filter_sequence (seq : Z) :
  0 <= seq < 65536 -> check_sequence seq frame <> Absent ->
  negb (peek16 e buf' (icmp + off_icmp_sequence) =? htons e seq)
  = rejects (check_sequence seq frame).
Proof.
  unfold check_sequence. intros Hseq.
  destruct (icmp_offset frame) as [off |] eqn:Eo; [| contradiction].
  destruct (filter_icmp_offset off Eo) as [<- Hoff].
  apply filter_field16; [unfold off_icmp_sequence; lia | assumption].
Qed.

End FilterOnFrame.

Lemma field16_range (frame : list byte) (off : nat) (v : Z) :
  field16 frame off = Some v -> 0 <= v < 65536.
Proof.
  unfold field16.
  destruct (field8 frame off) as [hi |] eqn:E0; [| discriminate].
  destruct (field8 frame (S off)) as [lo |] eqn:E1; [| discriminate].
  intros H. apply field8_range in E0. apply field8_range in E1.
  assert (v = 256 * hi + lo) by congruence. lia.
Qed.

Lemma expect_eqb_pass (field : option Z) (x : Z) :
  expect field (Z.eqb x) = Pass -> field = Some x.
Proof.
  unfold expect. destruct field as [v |]; [| discriminate].
  destruct (Z.eqb_spec x v); [congruence | discriminate].
Qed.

Lemma check_id_pass (id : Z) (frame : list byte) :
  check_id id frame = Pass -> 0 <= id < 65536.
Proof.
  unfold check_id. destruct (icmp_offset frame); [| discriminate].
  intros H. apply expect_eqb_pass, field16_range in H. exact H.
Qed.

Lemma check_sequence_pass (seq : Z) (frame : list byte) :
  check_sequence seq frame = Pass -> 0 <= seq < 65536.
Proof.
  unfold check_sequence. destruct (icmp_offset frame); [| discriminate].
  intros H. apply expect_eqb_pass, field16_range in H. exact H.
Qed.

Lemma filter_rejects (e : endian) (id seq : Z) (buf frame : list byte) :
  0 <= id < 65536 -> 0 <= seq < 65536 ->
  fails_a_check id seq frame ->
  wait_reply_filter e id seq (Z.of_nat (length (firstn 2048 frame)))
    (poke buf 0 (firstn 2048 frame)) = false.
Proof.
  intros Hid Hseq Hfail. unfold wait_reply_filter. cbv zeta.
  rewrite filter_length.
  destruct Hfail as [H | [H | [H | [H | [H | [H | [H | []]]]]]]].
  - rewrite H. reflexivity.
  - next_test. this_test filter_ethertype H. reflexivity.
  - do 2 next_test. this_test filter_header_length H. reflexivity.
  - do 3 next_test. this_test filter_protocol H. reflexivity.
  - do 4 next_test. this_test filter_echo_reply H. reflexivity.
  - do 5 next_test. this_test filter_id H. reflexivity.
  - do 6 next_test. this_test filter_sequence H. reflexivity.
Qed.

Lemma filter_accepts (e : endian) (id seq : Z) (buf frame : list byte) :
  passes_all_checks id seq frame ->
  wait_reply_filter e id seq (Z.of_nat (length (firstn 2048 frame)))
    (poke buf 0 (firstn 2048 frame)) = true.
Proof.
  unfold passes_all_checks, checks. intros Hall.
  repeat match goal with
         | Hf : Forall _ (_ :: _) |- _ => inversion Hf; subst; clear Hf
         end.
  repeat match goal with Hp : Pass = _ |- _ => symmetry in Hp end.
  pose proof (check_id_pass id frame ltac:(assumption)) as Hid.
  pose proof (check_sequence_pass seq frame ltac:(assumption)) as Hseq.
  unfold wait_reply_filter. cbv zeta. rewrite filter_length.
  repeat match goal with
         | Hp : ?c = Pass |- _ =>
             first [ this_test filter_ethertype Hp
                   | this_test filter_header_length Hp
                   | this_test filter_protocol Hp
                   | this_test filter_echo_reply Hp
                   | this_test filter_id Hp
                   | this_test filter_sequence Hp
                   | rewrite Hp; cbn [rejects] ];
             clear Hp
         end.
  reflexivity.
Qed.

(** ** One iteration of the loop of [wait_reply] *)

Lemma wait_reply_frame (e : endian) (id seq tout rc : Z) (frame : list byte)
    (world : list event) (buf mac_out : list byte) :
  0 < rc ->
  wait_reply e id seq tout (Event rc (RecvFrame frame) :: world) buf mac_out =
  let buf' := poke buf 0 (firstn 2048 frame) in
  if wait_reply_filter e id seq (Z.of_nat (length (firstn 2048 frame))) buf'
  then (0, poke mac_out 0 (firstn ETH_ALEN (skipn off_ether_shost buf')))
  else wait_reply e id seq tout world buf' mac_out.
Proof.
  intros Hrc. cbn [wait_reply poll_rc rx recv].
  destruct (Z.gtb_spec rc 0); [reflexivity | lia].
Qed.

Lemma wait_reply_poll_fails (e : endian) (id seq tout rc : Z) (r : recv_result)
    (world : list event) (buf mac_out : list byte) :
  rc <= 0 ->
  wait_reply e id seq tout (Event rc r :: world) buf mac_out = (-1, mac_out).
Proof.
  intros Hrc. cbn [wait_reply poll_rc].
  destruct (Z.gtb_spec rc 0); [lia | reflexivity].
Qed.

Lemma wait_reply_outcome (e : endian) (id seq tout : Z) (world : list event) :
  forall buf mac_out,
  wait_reply e id seq tout world buf mac_out = (-1, mac_out) \/
  exists mac, wait_reply e id seq tout world buf mac_out = (0, mac).
Proof.
  induction world as [| ev world IH]; intros buf mac_out; cbn [wait_reply].
  - left. reflexivity.
  - destruct (poll_rc ev >? 0); [| left; reflexivity].
    destruct (recv (rx ev) buf 2048) as [n buf'].
    destruct (wait_reply_filter e id seq n buf'); [right; eauto | apply IH].
Qed.

(** Two worlds with a common prefix whose continuations give the same
    result whatever the buffer holds give the same result. *)
Lemma wait_reply_prefix (e : endian) (id seq tout : Z) (pre w1 w2 : list event) :
  (forall buf mac_out, wait_reply e id seq tout w1 buf mac_out
                       = wait_reply e id seq tout w2 buf mac_out) ->
  forall buf mac_out,
  wait_reply e id seq tout (pre ++ w1) buf mac_out
  = wait_reply e id seq tout (pre ++ w2) buf mac_out.
Proof.
  intros Hw. induction pre as [| ev pre IH]; intros buf mac_out; cbn [app wait_reply].
  - apply Hw.
  - destruct (poll_rc ev >? 0); [| reflexivity].
    destruct (recv (rx ev) buf 2048) as [n buf'].
    destruct (wait_reply_filter e id seq n buf'); [reflexivity | apply IH].
Qed.

Lemma poke_zero (buf d : list byte) : poke buf 0 d = d ++ skipn (length d) buf.
Proof. reflexivity. Qed.

Lemma recv_source_mac (buf frame mac_out : list byte) :
  (12 <= length frame)%nat -> length mac_out = ETH_ALEN ->
  poke mac_out 0 (firstn ETH_ALEN (skipn off_ether_shost (poke buf 0 (firstn 2048 frame))))
  = source_mac frame.
Proof.
  unfold ETH_ALEN, off_ether_shost, source_mac. intros Hlen Hmac.
  assert (Hsrc : firstn 6 (skipn 6 (poke buf 0 (firstn 2048 frame))) = firstn 6 (skipn 6 frame)).
  { rewrite poke_zero.
    rewrite skipn_app, firstn_app, length_skipn, !length_firstn.
    replace (6 - (Nat.min 2048 (length frame) - 6))%nat with 0%nat by lia.
    rewrite firstn_O, app_nil_r.
    rewrite !firstn_skipn_comm, firstn_firstn. reflexivity. }
  rewrite Hsrc, poke_zero.
  replace (skipn (length (firstn 6 (skipn 6 frame))) mac_out) with (@nil byte)
    by (symmetry; apply skipn_all2; rewrite length_firstn, length_skipn; lia).
  apply app_nil_r.
Qed.

Lemma passes_length (id seq : Z) (frame : list byte) :
  passes_all_checks id seq frame -> (42 <= length frame)%nat.
Proof.
  unfold passes_all_checks, checks. intros H. inversion H as [| ? ? Hl _]; subst.
  unfold check_length in Hl.
  destruct (Nat.ltb_spec (length frame) (14 + 20 + 8)); [discriminate | lia].
Qed.

Lemma wait_reply_match (e : endian) (id seq tout rc : Z) (frame : list byte)
    (world : list event) (buf mac_out : list byte) :
  0 < rc -> length mac_out = ETH_ALEN -> passes_all_checks id seq frame ->
  wait_reply e id seq tout (Event rc (RecvFrame frame) :: world) buf mac_out
  = (0, source_mac frame).
Proof.
  intros Hrc Hmac Hpass. rewrite wait_reply_frame by assumption. cbv zeta.
  rewrite filter_accepts by assumption.
  rewrite recv_source_mac; [reflexivity | | assumption].
  apply passes_length in Hpass. lia.
Qed.

(** ** Replacing the ICMP checksum field of a frame *)

Lemma field8_poke_other (frame bs : list byte) (off i : nat) :
  (off + length bs <= length frame)%nat ->
  (i < off \/ off + length bs <= i)%nat ->
  field8 (poke frame off bs) i = field8 frame i.
Proof.
  intros Hlen Hi. unfold field8, poke. f_equal.
  destruct Hi as [Hi | Hi].
  - rewrite nth_error_app1 by (rewrite length_firstn; lia).
    rewrite nth_error_firstn. destruct (Nat.ltb_spec i off); [reflexivity | lia].
  - rewrite nth_error_app2 by (rewrite length_firstn; lia).
    rewrite nth_error_app2 by (rewrite length_firstn; lia).
    rewrite nth_error_skipn, length_firstn. f_equal. lia.
Qed.

Lemma field16_poke_other (frame bs : list byte) (off i : nat) :
  (off + length bs <= length frame)%nat ->
  (S i < off \/ off + length bs <= i)%nat ->
  field16 (poke frame off bs) i = field16 frame i.
Proof.
  intros Hlen Hi. unfold field16. rewrite !field8_poke_other by lia. reflexivity.
Qed.

Lemma field16_length (frame : list byte) (off : nat) (v : Z) :
  field16 frame off = Some v -> (S off < length frame)%nat.
Proof.
  unfold field16. destruct (field8 frame off); [| discriminate].
  destruct (field8 frame (S off)) as [lo |] eqn:E; [| discriminate].
  intros _. apply field8_nth in E. lia.
Qed.

Lemma expect_leb_pass (field : option Z) (x : Z) :
  expect field (Z.leb x) = Pass -> exists v, field = Some v /\ x <= v.
Proof.
  unfold expect. destruct field as [v |]; [| discriminate].
  destruct (Z.leb_spec x v); [eauto | discriminate].
Qed.

Lemma with_icmp_checksum_checks (id seq : Z) (frame : list byte) (c0 c1 : byte) :
  passes_all_checks id seq frame ->
  checks id seq (with_icmp_checksum frame c0 c1) = checks id seq frame /\
  source_mac (with_icmp_checksum frame c0 c1) = source_mac frame.
Proof.
  unfold passes_all_checks, checks. intros Hall.
  repeat match goal with
         | Hf : Forall _ (_ :: _) |- _ => inversion Hf; subst; clear Hf
         end.
  repeat match goal with Hp : Pass = _ |- _ => symmetry in Hp end.
  match goal with Hp : check_header_length frame = Pass |- _ =>
    destruct (expect_leb_pass _ _ Hp) as (hl & Hhl & Hmin) end.
  assert (Hoff : icmp_offset frame = Some (14 + Z.to_nat hl)%nat)
    by (unfold icmp_offset; rewrite Hhl; reflexivity).
  set (off := (14 + Z.to_nat hl)%nat) in *.
  assert (Hoff34 : (34 <= off)%nat) by (subst off; lia).
  assert (Hlen : (off + 7 < length frame)%nat).
  { match goal with Hp : check_sequence seq frame = Pass |- _ =>
      unfold check_sequence in Hp; rewrite Hoff in Hp;
      apply expect_eqb_pass, field16_length in Hp end. lia. }
  unfold with_icmp_checksum. rewrite Hoff.
  set (frame' := poke frame (off + 2) [c0; c1]).
  assert (H8 : forall i, (i < off + 2 \/ off + 4 <= i)%nat -> field8 frame' i = field8 frame i)
    by (intros i Hi; apply field8_poke_other; cbn [length]; lia).
  assert (H16 : forall i, (S i < off + 2 \/ off + 4 <= i)%nat -> field16 frame' i = field16 frame i)
    by (intros i Hi; apply field16_poke_other; cbn [length]; lia).
  assert (Hl : length frame' = length frame)
    by (apply poke_length; cbn [length]; lia).
  assert (Hhl' : ipv4_header_length frame' = ipv4_header_length frame)
    by (unfold ipv4_header_length; rewrite H8 by lia; reflexivity).
  assert (Hoff' : icmp_offset frame' = Some off)
    by (unfold icmp_offset; rewrite Hhl', Hhl; reflexivity).
  split.
  - unfold check_length, check_ethertype, check_header_length, check_protocol,
      check_echo_reply, check_id, check_sequence.
    rewrite Hoff', Hoff, Hhl', Hl, !H8, !H16 by lia. reflexivity.
  - unfold source_mac. rewrite !firstn_skipn_comm. f_equal.
    subst frame'. unfold poke. rewrite firstn_app, firstn_firstn, length_firstn.
    replace (6 + 6 - Nat.min (off + 2) (length frame))%nat with 0%nat by lia.
    rewrite firstn_O, app_nil_r. f_equal; lia.
Qed.

Lemma echo_request_unsummed_length (id seq : Z) (now : list byte) :
  length (echo_request_unsummed id seq now) = 64%nat.
Proof.
  unfold echo_request_unsummed, network_order.
  rewrite !length_app, echo_payload_length. reflexivity.
Qed.

Lemma build_icmp_echo_bytes (e : endian) (buf : list byte) (id seq : Z) (now : list byte) :
  (64 <= length buf)%nat ->
  exists c0 c1,
    build_icmp_echo e (Some buf) id seq now =
    (64, Some (z2b 8 :: z2b 0 :: c0 :: c1 ::
               z2b (id mod 65536 / 256) :: z2b ((id mod 65536) mod 256) ::
               z2b (seq mod 65536 / 256) :: z2b ((seq mod 65536) mod 256) ::
               echo_payload now ++ skipn 64 buf)).
Proof.
  intros Hlen. rewrite build_icmp_echo_packet by assumption.
  destruct (store16_shape e (csum16 e (echo_request_unsummed id seq now)))
    as (c0 & c1 & ->).
  exists c0, c1. unfold echo_request_unsummed, network_order. cbn [app].
  rewrite !poke_cons, poke_head2, <- !app_comm_cons. reflexivity.
Qed.

(** ** The checksum and network byte order *)

Lemma word_sum_cons2 (e : endian) (b0 b1 : byte) (l : list byte) :
  word_sum e (b0 :: b1 :: l) = word_value e b0 b1 + word_sum e l.
Proof.
  unfold word_sum. cbn [complete_words fold_right]. rewrite trailing_word_cons2. lia.
Qed.

Lemma b2z_zero (b : byte) : b2z b = 0 -> b = Byte.x00.
Proof. intros H. rewrite <- (z2b_b2z b), H. reflexivity. Qed.

Lemma big_words_trailing (d : list byte) :
  word_sum Big d + 255 * trailing_word d = fold_right Z.add 0 (network_words d).
Proof.
  induction d as [| b | b0 b1 d IH] using byte_pairs_ind.
  - reflexivity.
  - change (word_sum Big [b]) with (0 + b2z b).
    change (trailing_word [b]) with (b2z b).
    cbn [network_words fold_right]. lia.
  - rewrite word_sum_cons2, trailing_word_cons2.
    cbn [network_words fold_right word_value]. lia.
Qed.

Lemma network_order_inj (v w : Z) :
  0 <= v < 65536 -> 0 <= w < 65536 -> network_order v = network_order w -> v = w.
Proof.
  intros Hv Hw H. unfold network_order in H.
  destruct (byte_split v Hv) as (Vh & Vl & Vs).
  destruct (byte_split w Hw) as (Wh & Wl & Ws).
  assert (H1 : b2z (z2b (v / 256)) = b2z (z2b (w / 256))) by congruence.
  assert (H2 : b2z (z2b (v mod 256)) = b2z (z2b (w mod 256))) by congruence.
  rewrite !b2z_z2b, !Z.mod_small in H1 by lia.
  rewrite !b2z_z2b, !Zmod_mod in H2. lia.
Qed.


(** The complement of the sum of the host's words, stored by the host, is
    the RFC 1071 checksum of the byte stream, most significant byte first,
    when the host is little-endian, the length is even or the last byte is
    zero. The sum is taken without any wrap-around here. *)
Lemma stored_sum_network_order (e : endian) (data : list byte) :
  e = Little \/ Nat.even (length data) = true \/ last data Byte.x00 = Byte.x00 ->
  store16 e (65535 - ones_normal (word_sum e data))
  = network_order (internet_checksum data).
Proof.
  intros Hcase.
  pose proof (word_sum_bound e data) as [Hs0 _].
  rewrite internet_checksum_normal.
  set (s := word_sum e data) in *.
  set (t := fold_right Z.add 0 (network_words data)).
  assert (Ht0 : 0 <= t).
  { pose proof (network_words_range data) as Hr. subst t.
    induction Hr; cbn [fold_right]; lia. }
  pose proof (ones_normal_range s) as Hrs.
  destruct e.
  - (* little-endian host: the stored bytes are the swapped value *)
    destruct (little_words_swapped data) as (k & k' & Hk & Hk' & H1 & H2).
    fold s t in H1, H2.
    destruct (ones_normal_decompose s Hs0) as (q & Hq & Hsq & Hsz).
    pose proof (Z.div_mod (ones_normal s) 256 ltac:(lia)) as Hdm.
    pose proof (Z.mod_pos_bound (ones_normal s) 256 ltac:(lia)) as Hm.
    set (h := ones_normal s / 256) in *. set (l := ones_normal s mod 256) in *.
    assert (Hh : 0 <= h <= 255) by (subst h; split;
      [apply Z.div_pos; lia | apply Z.lt_succ_r, Z.div_lt_upper_bound; lia]).
    assert (Hswap : 256 * l + h = ones_normal t).
    { apply ones_normal_unique; try lia. exists (h + 256 * q - k). lia. }
    rewrite <- Hswap. unfold store16, network_order.
    rewrite Z.shiftr_div_pow2 by lia. change (2 ^ 8) with 256.
    set (v := 65535 - ones_normal s). set (w := 65535 - (256 * l + h)).
    assert (Hv1 : v / 256 = 255 - h)
      by (symmetry; apply (Z.div_unique_pos v 256 (255 - h) (255 - l)); lia).
    assert (Hv2 : v mod 256 = 255 - l)
      by (symmetry; apply (Z.mod_unique_pos v 256 (255 - h) (255 - l)); lia).
    assert (Hw1 : w / 256 = 255 - l)
      by (symmetry; apply (Z.div_unique_pos w 256 (255 - l) (255 - h)); lia).
    assert (Hw2 : w mod 256 = 255 - h)
      by (symmetry; apply (Z.mod_unique_pos w 256 (255 - l) (255 - h)); lia).
    rewrite Hv1, Hw1, Hw2.
    f_equal. apply z2b_mod. rewrite Hv2. rewrite Z.mod_small; lia.
  - assert (Heq : word_sum Big data = fold_right Z.add 0 (network_words data)).
    { destruct Hcase as [Hc | [Hev | Hl]]; [discriminate | apply big_words_even, Hev |].
      rewrite <- big_words_trailing. unfold trailing_word. rewrite Hl.
      change (b2z Byte.x00) with 0. destruct (Nat.odd (length data)); lia. }
    subst s t. rewrite Heq in *.
    unfold store16, network_order. rewrite Z.shiftr_div_pow2 by lia.
    change (2 ^ 8) with 256. rewrite z2b_mod256. reflexivity.
Qed.

Lemma csum16_network_order_no_wrap (e : endian) (data : list byte) :
  word_sum e data < 2 ^ 32 ->
  e = Little \/ Nat.even (length data) = true \/ last data Byte.x00 = Byte.x00 ->
  store16 e (csum16 e data) = network_order (internet_checksum data).
Proof.
  intros Hnw Hcase.
  pose proof (word_sum_bound e data) as [Hs0 _].
  rewrite csum16_normal. unfold accumulator32. rewrite Z.mod_small by lia.
  apply stored_sum_network_order, Hcase.
Qed.

Lemma word_sum_no_wrap (e : endian) (data : list byte) :
  Z.of_nat (length data) <= 131074 -> word_sum e data < 2 ^ 32.
Proof.
  intros Hlen. pose proof (word_sum_bound e data) as [_ Hb].
  change (2 ^ 32) with 4294967296. lia.
Qed.

Lemma csum16_network_order (e : endian) (data : list byte) :
  Z.of_nat (length data) <= 131072 ->
  e = Little \/ Nat.even (length data) = true ->
  store16 e (csum16 e data) = network_order (internet_checksum data).
Proof.
  intros Hlen Hcase.
  apply csum16_network_order_no_wrap; [apply word_sum_no_wrap; lia | tauto].
Qed.




(** * The claims *)

(** C1. The claim: the loop treats a frame as a candidate match only if the
    frame is long enough to contain the Ethernet header, the whole IPv4
    header (header-length field x 4) and the ICMP header; shorter frames are
    discarded before any ICMP field is inspected. The code only compares the
    length with 14 + 20 + 8 = 42. This theorem runs it on two frames: an
    82-byte frame that is rejected on its Ethernet type, then a 42-byte frame
    whose header-length field is 15. The second frame ends 40 bytes before
    its ICMP header would, its three ICMP checks have no field to read, and
    [wait_reply] still returns 0 with its source MAC, whatever the local
    buffer held at entry: the ICMP fields are read from the bytes the first
    frame left in the buffer. *)
Theorem wait_reply_matches_short_frame (e : endian) (buf mac_out : list byte) :
  length mac_out = ETH_ALEN ->
  length short_frame = 42%nat /\
  icmp_offset short_frame = Some 74%nat /\
  contains_all_headers short_frame = false /\
  checks 1234 1 short_frame = [Pass; Pass; Pass; Pass; Absent; Absent; Absent] /\
  wait_reply e 1234 1 3000 [arrival decoy_frame] buf mac_out = (-1, mac_out) /\
  wait_reply e 1234 1 3000 [arrival decoy_frame; arrival short_frame] buf mac_out
  = (0, source_mac short_frame).
Proof.
  intros Hmac.
  assert (Hdecoy : fails_a_check 1234 1 decoy_frame)
    by (unfold fails_a_check; vm_compute; auto 10).
  assert (Hshort : wait_reply_filter e 1234 1
            (Z.of_nat (length (firstn 2048 short_frame)))
            (poke (poke buf 0 (firstn 2048 decoy_frame)) 0 (firstn 2048 short_frame))
          = true)
    by (destruct e; vm_compute; reflexivity).
  do 4 (split; [vm_compute; reflexivity |]).
  unfold arrival.
  rewrite !(wait_reply_frame e 1234 1 3000 1 decoy_frame) by lia. cbv zeta.
  rewrite filter_rejects by (assumption || lia).
  split; [reflexivity |].
  rewrite wait_reply_frame by lia. cbv zeta.
  rewrite Hshort, recv_source_mac; [reflexivity | vm_compute; lia | assumption].
Qed.

Lemma wait_reply_matches_short_frame_witness :
  wait_reply Little 1234 1 3000 [arrival decoy_frame; arrival short_frame]
    (repeat Byte.x00 2048) (repeat Byte.x2a 6)
  = (0, [Byte.xde; Byte.xad; Byte.xbe; Byte.xef; Byte.x00; Byte.x01]).
Proof.
  apply (wait_reply_matches_short_frame Little (repeat Byte.x00 2048) (repeat Byte.x2a 6)).
  reflexivity.
Defined.




(** C3, as the specification states it: the checksum recomputed over the
    finished packet would be 0xFFFF. It is not: for the packet built for
    id 1234, sequence 1, the folded accumulator is 0xFFFF and the recomputed
    checksum, its complement, is 0x0000. *)
Lemma csum16_built_packet_not_ffff :
  exists pkt,
    build_icmp_echo Little (Some (repeat Byte.x00 64)) 1234 1 (repeat Byte.x00 8)
      = (64, Some pkt) /\
    csum16_fold (csum16_tail (csum16_words Little pkt 0)) <> 0 /\
    csum16 Little pkt <> 65535.
Proof.
  eexists. split; [vm_compute; reflexivity |]. split; vm_compute; discriminate.
Qed.

(** C3, amended. For every buffer whose checksum field is an aligned 16-bit
    word holding zero, storing the computed checksum in that field and
    recomputing yields an accumulator that folds to 0xFFFF, and therefore a
    recomputed checksum of 0x0000, whatever the length of the buffer: the
    stamped accumulator is a multiple of 65535 below 2^32 and cannot wrap.
    In particular [csum16] of the 64-byte packet finished by
    [build_icmp_echo] is 0x0000. *)
Theorem csum16_verification_identity :
  (forall (e : endian) (d : list byte) (off : nat),
     Nat.even off = true ->
     firstn 2 (skipn off d) = [Byte.x00; Byte.x00] ->
     let d' := poke d off (store16 e (csum16 e d)) in
     csum16_fold (csum16_tail (csum16_words e d' 0)) = 65535 /\ csum16 e d' = 0) /\
  (forall (e : endian) (buf : list byte) (id seq : Z) (now pkt : list byte),
     (64 <= length buf)%nat ->
     build_icmp_echo e (Some buf) id seq now = (64, Some pkt) ->
     csum16_fold (csum16_tail (csum16_words e (firstn 64 pkt) 0)) = 65535 /\
     csum16 e (firstn 64 pkt) = 0).
Proof.
  split; [exact csum16_stamped |].
  intros e buf id seq now pkt Hlen Hbuild.
  rewrite build_icmp_echo_packet in Hbuild by assumption.
  assert (Hpkt : pkt = poke (echo_request_unsummed id seq now) 2
                         (store16 e (csum16 e (echo_request_unsummed id seq now)))
                       ++ skipn 64 buf) by congruence.
  clear Hbuild. subst pkt.
  pose proof (echo_request_unsummed_length id seq now) as Hu.
  destruct (store16_shape e (csum16 e (echo_request_unsummed id seq now)))
    as (c0 & c1 & Hc).
  rewrite firstn_app, firstn_all2, Hc, poke_length, Hu, firstn_O, app_nil_r
    by (rewrite ?Hc, ?poke_length, Hu; cbn [length]; lia).
  rewrite <- Hc. apply csum16_stamped; reflexivity.
Qed.

Lemma csum16_verification_identity_witness :
  csum16 Little
    (poke [Byte.x08; Byte.x00; Byte.x00; Byte.x00; Byte.x04; Byte.xd2] 2
       (store16 Little
          (csum16 Little [Byte.x08; Byte.x00; Byte.x00; Byte.x00; Byte.x04; Byte.xd2])))
  = 0 /\
  csum16 Big
    (firstn 64
       (poke (echo_request_unsummed 1234 1 [Byte.x2a]) 2
          (store16 Big (csum16 Big (echo_request_unsummed 1234 1 [Byte.x2a])))
        ++ skipn 64 (repeat Byte.xff 64)))
  = 0.
Proof.
  destruct csum16_verification_identity as [Hany Hbuilt]. split.
  - apply (Hany Little [Byte.x08; Byte.x00; Byte.x00; Byte.x00; Byte.x04; Byte.xd2] 2%nat);
      reflexivity.
  - apply (Hbuilt Big (repeat Byte.xff 64) 1234 1 [Byte.x2a]);
      [cbn; lia | vm_compute; reflexivity].
Defined.

(** C4. For every 16-bit id and sequence (0 and 65535 included),
    [build_icmp_echo] returns 64 and leaves a 64-byte packet whose type is 8
    (Echo Request), whose code is 0 and whose id and sequence fields hold
    the requested values in network byte order; it writes nothing beyond
    the 64 bytes. *)
Theorem build_icmp_echo_fields (e : endian) (buf : list byte) (id seq : Z)
    (now : list byte) :
  (64 <= length buf)%nat -> 0 <= id < 65536 -> 0 <= seq < 65536 ->
  exists pkt,
    build_icmp_echo e (Some buf) id seq now = (64, Some pkt) /\
    length (firstn 64 pkt) = 64%nat /\
    skipn 64 pkt = skipn 64 buf /\
    field8 pkt 0 = Some 8 /\
    field8 pkt 1 = Some 0 /\
    field16 pkt 4 = Some id /\
    field16 pkt 6 = Some seq.
Proof.
  intros Hlen Hid Hseq.
  destruct (build_icmp_echo_bytes e buf id seq now Hlen) as (c0 & c1 & ->).
  eexists. split; [reflexivity |].
  destruct (byte_split id Hid) as (Hih & Hil & Hi).
  destruct (byte_split seq Hseq) as (Hsh & Hsl & Hs).
  rewrite (Z.mod_small id), (Z.mod_small seq) by lia.
  pose proof (echo_payload_length now) as Hpay.
  repeat split.
  - rewrite length_firstn. cbn [length]. rewrite length_app, Hpay. lia.
  - rewrite !skipn_cons, skipn_app, skipn_all2, Hpay by lia. reflexivity.
  - unfold field16, field8. cbn [nth_error option_map].
    rewrite !b2z_z2b, !Z.mod_small by lia. f_equal. lia.
  - unfold field16, field8. cbn [nth_error option_map].
    rewrite !b2z_z2b, !Z.mod_small by lia. f_equal. lia.
Qed.

Lemma build_icmp_echo_fields_witness :
  exists pkt,
    build_icmp_echo Little (Some (repeat Byte.xff 64)) 65535 0 (repeat Byte.x2a 8)
      = (64, Some pkt) /\
    length (firstn 64 pkt) = 64%nat /\
    skipn 64 pkt = skipn 64 (repeat Byte.xff 64) /\
    field8 pkt 0 = Some 8 /\
    field8 pkt 1 = Some 0 /\
    field16 pkt 4 = Some 65535 /\
    field16 pkt 6 = Some 0.
Proof.
  apply (build_icmp_echo_fields Little (repeat Byte.xff 64) 65535 0 (repeat Byte.x2a 8));
    [cbn; lia | lia | lia].
Defined.

(** C5. A frame that fails one of the seven rejection checks (too short;
    Ethernet type not IPv4; header length below 20; protocol not ICMP; type
    not Echo Reply or code not 0; id mismatch; sequence mismatch) is not
    reported as a match, whatever the other checks say: the loop leaves the
    caller's array alone and goes on with the rest of the traffic. *)
Theorem wait_reply_discards_failing_frame (e : endian) (id seq tout rc : Z)
    (frame : list byte) (world : list event) (buf mac_out : list byte) :
  0 <= id < 65536 -> 0 <= seq < 65536 -> 0 < rc ->
  fails_a_check id seq frame ->
  wait_reply e id seq tout (Event rc (RecvFrame frame) :: world) buf mac_out
  = wait_reply e id seq tout world (poke buf 0 (firstn 2048 frame)) mac_out.
Proof.
  intros Hid Hseq Hrc Hfail. rewrite wait_reply_frame by assumption. cbv zeta.
  rewrite filter_rejects by assumption. reflexivity.
Qed.

Lemma wait_reply_discards_failing_frame_witness :
  fails_a_check 1234 2 example_reply /\
  wait_reply Little 1234 2 3000 [arrival example_reply]
    (repeat Byte.x00 2048) (repeat Byte.x00 6)
  = (-1, repeat Byte.x00 6).
Proof.
  assert (Hfail : fails_a_check 1234 2 example_reply)
    by (unfold fails_a_check; vm_compute; auto 10).
  split; [exact Hfail |].
  unfold arrival.
  rewrite (wait_reply_discards_failing_frame Little 1234 2 3000 1 example_reply []);
    [reflexivity | lia | lia | lia | exact Hfail].
Defined.

(** C6. A frame that passes all the checks ends the loop with success, and
    the MAC reported is the 6-byte Ethernet source-MAC field of that frame;
    [main] then prints it. For a reply from aa:bb:cc:dd:ee:ff with id 1234
    and sequence 1 the line printed is aa:bb:cc:dd:ee:ff. *)
Theorem wait_reply_reports_source_mac (e : endian) (id seq tout rc : Z)
    (frame : list byte) (world : list event) (buf mac_out : list byte) :
  0 < rc -> length mac_out = ETH_ALEN -> passes_all_checks id seq frame ->
  wait_reply e id seq tout (Event rc (RecvFrame frame) :: world) buf mac_out
  = (0, source_mac frame) /\
  (seq = 1 ->
   main_wait_and_report e id (Event rc (RecvFrame frame) :: world) buf mac_out
   = Report (print_mac (source_mac frame)) EmptyString EXIT_SUCCESS).
Proof.
  intros Hrc Hmac Hpass. split.
  - apply wait_reply_match; assumption.
  - intros ->. unfold main_wait_and_report.
    rewrite wait_reply_match by assumption. reflexivity.
Qed.

Lemma wait_reply_reports_source_mac_witness :
  passes_all_checks 1234 1 example_reply /\
  wait_reply Little 1234 1 3000 [arrival example_reply]
    (repeat Byte.x00 2048) (repeat Byte.x00 6)
  = (0, [Byte.xaa; Byte.xbb; Byte.xcc; Byte.xdd; Byte.xee; Byte.xff]) /\
  to_stdout (main_wait_and_report Little 1234 [arrival example_reply]
               (repeat Byte.x00 2048) (repeat Byte.x00 6))
  = ("aa:bb:cc:dd:ee:ff" ++ newline)%string.
Proof.
  assert (Hpass : passes_all_checks 1234 1 example_reply)
    by (unfold passes_all_checks; vm_compute; repeat constructor).
  destruct (wait_reply_reports_source_mac Little 1234 1 3000 1 example_reply []
              (repeat Byte.x00 2048) (repeat Byte.x00 6))
    as [Hret Hmain]; [lia | reflexivity | exact Hpass |].
  split; [exact Hpass |]. split; [exact Hret |].
  unfold arrival. rewrite Hmain by reflexivity. reflexivity.
Defined.

(** C7. The caller's MAC array is written only on success: when
    [wait_reply] returns -1 (timeout or error of [poll]) the array is as it
    was before the call. *)
Theorem wait_reply_failure_keeps_mac_out (e : endian) (id seq tout : Z)
    (world : list event) (buf mac_out mac_out' : list byte) :
  wait_reply e id seq tout world buf mac_out = (-1, mac_out') ->
  mac_out' = mac_out.
Proof.
  intros H. destruct (wait_reply_outcome e id seq tout world buf mac_out) as [Hf | [mac Hs]].
  - congruence.
  - rewrite Hs in H. discriminate.
Qed.

Lemma wait_reply_failure_keeps_mac_out_witness :
  fst (wait_reply Big 1234 2 3000
         [arrival example_reply; Event 1 RecvError; Event (-1) RecvError]
         (repeat Byte.x00 2048) (repeat Byte.x2a 6)) = -1 /\
  snd (wait_reply Big 1234 2 3000
         [arrival example_reply; Event 1 RecvError; Event (-1) RecvError]
         (repeat Byte.x00 2048) (repeat Byte.x2a 6)) = repeat Byte.x2a 6.
Proof.
  split; [vm_compute; reflexivity |].
  apply (wait_reply_failure_keeps_mac_out Big 1234 2 3000
           [arrival example_reply; Event 1 RecvError; Event (-1) RecvError]
           (repeat Byte.x00 2048)).
  vm_compute. reflexivity.
Defined.

(** C9. An error of [poll] (a negative return value) is treated exactly as
    a timeout (return value 0): at the iteration where it happens
    [wait_reply] returns -1 and leaves the caller's array alone in both
    cases, so after any common history the two runs return the same pair,
    and [main] reports the same message and exit status. *)
Theorem wait_reply_poll_error_is_timeout (e : endian) (id seq tout rc : Z)
    (r1 r2 : recv_result) (pre w1 w2 : list event) (buf mac_out : list byte) :
  rc < 0 ->
  wait_reply e id seq tout (Event rc r1 :: w1) buf mac_out = (-1, mac_out) /\
  wait_reply e id seq tout (Event 0 r2 :: w2) buf mac_out = (-1, mac_out) /\
  wait_reply e id seq tout (pre ++ Event rc r1 :: w1) buf mac_out
  = wait_reply e id seq tout (pre ++ Event 0 r2 :: w2) buf mac_out /\
  main_wait_and_report e id (pre ++ Event rc r1 :: w1) buf mac_out
  = main_wait_and_report e id (pre ++ Event 0 r2 :: w2) buf mac_out.
Proof.
  intros Hrc.
  assert (Hsame : forall id' seq' tout' b m,
    wait_reply e id' seq' tout' (Event rc r1 :: w1) b m
    = wait_reply e id' seq' tout' (Event 0 r2 :: w2) b m)
    by (intros; rewrite !wait_reply_poll_fails by lia; reflexivity).
  split; [| split; [| split]].
  - apply wait_reply_poll_fails. lia.
  - apply wait_reply_poll_fails. lia.
  - apply wait_reply_prefix, Hsame.
  - unfold main_wait_and_report.
    rewrite (wait_reply_prefix e id 1 3000 pre _ _ (Hsame id 1 3000)). reflexivity.
Qed.

Lemma wait_reply_poll_error_is_timeout_witness :
  main_wait_and_report Little 1234
    [arrival decoy_frame; Event (-1) (RecvFrame example_reply)]
    (repeat Byte.x00 2048) (repeat Byte.x00 6)
  = main_wait_and_report Little 1234 [arrival decoy_frame; Event 0 RecvError]
      (repeat Byte.x00 2048) (repeat Byte.x00 6).
Proof.
  apply (wait_reply_poll_error_is_timeout Little 1234 1 3000 (-1)
           (RecvFrame example_reply) RecvError [arrival decoy_frame] [] []).
  lia.
Defined.

(** C10. The ICMP checksum of a reply is never verified: whatever two bytes
    stand in the checksum field of a frame that passes the seven checks, the
    frame is reported as a match and its source MAC returned. *)
Theorem wait_reply_ignores_icmp_checksum (e : endian) (id seq tout rc : Z)
    (frame : list byte) (c0 c1 : byte) (world : list event)
    (buf mac_out : list byte) :
  0 < rc -> length mac_out = ETH_ALEN -> passes_all_checks id seq frame ->
  wait_reply e id seq tout
    (Event rc (RecvFrame (with_icmp_checksum frame c0 c1)) :: world) buf mac_out
  = (0, source_mac frame).
Proof.
  intros Hrc Hmac Hpass.
  destruct (with_icmp_checksum_checks id seq frame c0 c1 Hpass) as [Hchecks Hsrc].
  rewrite <- Hsrc. apply wait_reply_match; try assumption.
  unfold passes_all_checks. rewrite Hchecks. exact Hpass.
Qed.

Lemma wait_reply_ignores_icmp_checksum_witness :
  icmp_checksum_verifies Little example_reply = true /\
  icmp_checksum_verifies Little (with_icmp_checksum example_reply Byte.xde Byte.xad)
  = false /\
  wait_reply Little 1234 1 3000
    [arrival (with_icmp_checksum example_reply Byte.xde Byte.xad)]
    (repeat Byte.x00 2048) (repeat Byte.x00 6)
  = (0, [Byte.xaa; Byte.xbb; Byte.xcc; Byte.xdd; Byte.xee; Byte.xff]).
Proof.
  split; [vm_compute; reflexivity |]. split; [vm_compute; reflexivity |].
  apply (wait_reply_ignores_icmp_checksum Little 1234 1 3000 1 example_reply
           Byte.xde Byte.xad []);
    [lia | reflexivity | unfold passes_all_checks; vm_compute; repeat constructor].
Defined.

(** * Further properties of the code *)

(** ** The checksum *)

Lemma csum16_fold_small (s : Z) : 0 <= s < 65536 -> csum16_fold s = s.
Proof.
  intros Hs. rewrite csum16_fold_step, shiftr16_div, Z.div_small by lia.
  reflexivity.
Qed.

(** X1. On a 32-bit accumulator the carry-folding loop of [csum16] runs at
    most twice: cutting the loop after two turns gives the same value, and
    that value has no carry left. *)
Theorem csum16_fold_two_turns (s : Z) :
  0 <= s < 2 ^ 32 ->
  csum16_fold s = csum16_fold_turns 2 s /\ Z.shiftr (csum16_fold_turns 2 s) 16 = 0.
Proof.
  intros Hs. cbn [csum16_fold_turns]. unfold csum16_fold_once.
  rewrite (csum16_fold_step s), !shiftr16_div, !land16_mod.
  pose proof (Z.mod_pos_bound s 65536 ltac:(lia)) as Hm.
  pose proof (Z.div_mod s 65536 ltac:(lia)) as Hdm.
  assert (Hd : 0 <= s / 65536 < 65536)
    by (split; [apply Z.div_pos; lia | apply Z.div_lt_upper_bound; lia]).
  destruct (Z_lt_dec 0 (s / 65536)) as [Hhi | Hhi];
    destruct (Z.ltb_spec 0 (s / 65536)) as [Hhi' | Hhi']; try (exfalso; lia).
  - set (s1 := s mod 65536 + s / 65536) in *.
    rewrite (csum16_fold_step s1), !shiftr16_div, !land16_mod.
    assert (Hs1 : 0 <= s1 < 131072) by (subst s1; lia).
    pose proof (Z.mod_pos_bound s1 65536 ltac:(lia)) as Hm1.
    pose proof (Z.div_mod s1 65536 ltac:(lia)) as Hdm1.
    assert (Hd1 : 0 <= s1 / 65536 < 2)
      by (split; [apply Z.div_pos; lia | apply Z.div_lt_upper_bound; lia]).
    destruct (Z_lt_dec 0 (s1 / 65536)) as [H1 | H1];
      destruct (Z.ltb_spec 0 (s1 / 65536)) as [H1' | H1']; try (exfalso; lia).
    + assert (Hlt : 0 <= s1 mod 65536 + s1 / 65536 < 65536) by lia.
      rewrite csum16_fold_small by exact Hlt.
      split; [reflexivity | apply Z.div_small; lia].
    + split; [reflexivity | lia].
  - split; [reflexivity | lia].
Qed.

Lemma csum16_fold_two_turns_witness :
  csum16_fold 4294967295 = 65535 /\ Z.shiftr (csum16_fold_turns 2 4294967295) 16 = 0.
Proof.
  destruct (csum16_fold_two_turns 4294967295) as [H1 H2]; [lia |].
  split; [rewrite H1; reflexivity | exact H2].
Defined.

(** The weight of one byte in the sum of the words does not depend on its
    value: it is 1 or 256. *)
Lemma word_sum_one_byte (e : endian) (pre post : list byte) :
  exists w, (w = 1 \/ w = 256) /\
    forall x, word_sum e (pre ++ x :: post) = word_sum e (pre ++ Byte.x00 :: post) + w * b2z x.
Proof.
  induction pre as [| a | a b pre IH] using byte_pairs_ind.
  - destruct post as [| p post].
    + exists 1. split; [auto |]. intros x. cbn [app].
      unfold word_sum. cbn [complete_words fold_right].
      change (trailing_word [x]) with (b2z x).
      change (trailing_word [Byte.x00]) with 0. lia.
    + destruct e; [exists 1 | exists 256]; (split; [auto |]); intros x; cbn [app];
        rewrite !word_sum_cons2; cbn [word_value];
        change (b2z Byte.x00) with 0; lia.
  - destruct e; [exists 256 | exists 1]; (split; [auto |]); intros x; cbn [app];
      rewrite !word_sum_cons2; cbn [word_value];
      change (b2z Byte.x00) with 0; lia.
  - destruct IH as (w & Hw & IH). exists w. split; [exact Hw |]. intros x.
    cbn [app]. rewrite !word_sum_cons2, (IH x). lia.
Qed.

Lemma poke_one (d : list byte) (i : nat) (b : byte) :
  (i < length d)%nat ->
  d = firstn i d ++ nth i d Byte.x00 :: skipn (S i) d /\
  poke d i [b] = firstn i d ++ b :: skipn (S i) d.
Proof.
  intros Hi. split.
  - rewrite <- (firstn_skipn i d) at 1. f_equal.
    rewrite <- (firstn_skipn 1 (skipn i d)), skipn_skipn. cbn [Nat.add].
    destruct (skipn i d) as [| x t] eqn:E.
    + apply (f_equal (@length byte)) in E. rewrite length_skipn in E. cbn in E. lia.
    + cbn [firstn app]. f_equal.
      rewrite <- (Nat.add_0_r i) at 1. rewrite <- nth_skipn, E. reflexivity.
  - unfold poke. cbn [length app]. rewrite Nat.add_1_r. reflexivity.
Qed.

(** X2. [csum16] detects every single-byte change: two buffers of the same
    length (at most 2^17 bytes) that differ in exactly one byte never have
    the same checksum. *)
Theorem csum16_detects_byte_change (e : endian) (d : list byte) (i : nat) (b : byte) :
  (i < length d)%nat -> Z.of_nat (length d) <= 131072 ->
  nth i d Byte.x00 <> b ->
  csum16 e (poke d i [b]) <> csum16 e d.
Proof.
  intros Hi Hlen Hne. destruct (poke_one d i b Hi) as [Hd Hp].
  assert (Hl : length (poke d i [b]) = length d) by (apply poke_length; cbn [length]; lia).
  rewrite !csum16_normal, !accumulator32_exact by lia.
  destruct (word_sum_one_byte e (firstn i d) (skipn (S i) d)) as (w & Hw & Hsum).
  pose proof (Hsum b) as Hb. pose proof (Hsum (nth i d Byte.x00)) as Hx.
  rewrite <- Hp in Hb. rewrite <- Hd in Hx.
  pose proof (word_sum_bound e d) as [H0 _].
  pose proof (word_sum_bound e (poke d i [b])) as [H0' _].
  destruct (ones_normal_decompose _ H0) as (k & _ & Hk & _).
  destruct (ones_normal_decompose _ H0') as (k' & _ & Hk' & _).
  pose proof (b2z_range b) as Rb. pose proof (b2z_range (nth i d Byte.x00)) as Rx.
  assert (Hv : b2z (nth i d Byte.x00) <> b2z b)
    by (intros E; apply Hne; rewrite <- (z2b_b2z b), <- E; symmetry; apply z2b_b2z).
  intros Heq.
  assert (Hn : ones_normal (word_sum e (poke d i [b])) = ones_normal (word_sum e d)) by lia.
  rewrite Hn in Hk'.
  assert (Hdiff : w * (b2z b - b2z (nth i d Byte.x00)) = 65535 * (k' - k)) by lia.
  destruct Hw as [-> | ->]; lia.
Qed.

Lemma csum16_detects_byte_change_witness :
  csum16 Little (poke [Byte.x08; Byte.x00; Byte.xf7; Byte.xff] 1 [Byte.x01])
  <> csum16 Little [Byte.x08; Byte.x00; Byte.xf7; Byte.xff].
Proof.
  apply csum16_detects_byte_change; [cbn; lia | cbn; lia | discriminate].
Defined.

Lemma ones_normal_absorb (x y : Z) :
  0 <= x -> 0 <= y -> ones_normal (x + ones_normal y) = ones_normal (x + y).
Proof.
  intros Hx Hy.
  destruct (ones_normal_decompose y Hy) as (k2 & Hk2 & Hy2 & Hz2).
  pose proof (ones_normal_range y) as Ry.
  destruct (ones_normal_decompose (x + ones_normal y) ltac:(lia)) as (k1 & Hk1 & H1 & Hz1).
  pose proof (ones_normal_range (x + ones_normal y)) as R1.
  apply ones_normal_unique; try lia. exists (k1 + k2). lia.
Qed.

(** X3. The checksum of a buffer is determined by the checksums of its
    parts: when the first part has an even length, the complement of the
    checksum of the whole is the ones'-complement sum of the complements of
    the checksums of the parts (buffers of at most 2^17 bytes). *)
Theorem csum16_app (e : endian) (a b : list byte) :
  Nat.even (length a) = true -> Z.of_nat (length (a ++ b)) <= 131072 ->
  65535 - csum16 e (a ++ b) = ones_add (65535 - csum16 e a) (65535 - csum16 e b).
Proof.
  intros Hev Hlen. rewrite length_app in Hlen.
  rewrite !csum16_normal, !accumulator32_exact by (rewrite ?length_app; lia).
  rewrite word_sum_app by assumption.
  pose proof (word_sum_bound e a) as [Ha _]. pose proof (word_sum_bound e b) as [Hb _].
  pose proof (ones_normal_range (word_sum e b)) as Rb.
  replace (65535 - (65535 - ones_normal (word_sum e a))) with (ones_normal (word_sum e a)) by lia.
  replace (65535 - (65535 - ones_normal (word_sum e b))) with (ones_normal (word_sum e b)) by lia.
  rewrite ones_add_normal, ones_normal_absorb by lia. lia.
Qed.

Lemma csum16_app_witness :
  65535 - csum16 Big ([Byte.xff; Byte.xff] ++ [Byte.x00; Byte.x02; Byte.x07])
  = ones_add (65535 - csum16 Big [Byte.xff; Byte.xff])
             (65535 - csum16 Big [Byte.x00; Byte.x02; Byte.x07]).
Proof. apply csum16_app; [reflexivity | cbn; lia]. Defined.

(** ** The Echo Request *)

(** X4. The 64 bytes produced by [build_icmp_echo] are determined by the
    id, the sequence number and the bytes of the time stamp as they lie in
    the host's memory: type 8, code 0, the RFC 1071 checksum of the packet
    in network byte order, id and sequence in network byte order, then the
    leading bytes of the time stamp as [memcpy] copies them, padded with
    zeros. The header fields and the checksum are encoded in this way on a
    host of either byte order; the bytes of the time stamp are the host's
    own representation of [time_t] and are taken as given. No byte the
    buffer held before the call is left among the 64. *)
Theorem build_icmp_echo_wire_format (e : endian) (buf : list byte) (id seq : Z)
    (now : list byte) :
  (64 <= length buf)%nat ->
  exists pkt,
    build_icmp_echo e (Some buf) id seq now = (64, Some pkt) /\
    firstn 64 pkt =
      [z2b 8; z2b 0]
      ++ network_order (internet_checksum (echo_request_unsummed id seq now))
      ++ network_order (id mod 65536) ++ network_order (seq mod 65536)
      ++ firstn 56 now ++ repeat Byte.x00 (56 - length (firstn 56 now)).
Proof.
  intros Hlen. rewrite build_icmp_echo_packet by assumption.
  eexists. split; [reflexivity |].
  pose proof (echo_request_unsummed_length id seq now) as Hu.
  rewrite csum16_network_order
    by first [rewrite Hu; cbn; lia | right; rewrite Hu; reflexivity].
  set (c := internet_checksum (echo_request_unsummed id seq now)).
  rewrite firstn_app, firstn_all2
    by (rewrite poke_length; rewrite Hu; cbn [network_order length]; lia).
  rewrite poke_length, Hu by (rewrite Hu; cbn [network_order length]; lia).
  rewrite firstn_O, app_nil_r.
  unfold echo_request_unsummed, network_order, echo_payload. cbn [app].
  rewrite !poke_cons, poke_head2. reflexivity.
Qed.

Lemma build_icmp_echo_wire_format_witness :
  exists pkt,
    build_icmp_echo Little (Some (repeat Byte.xff 70)) 1234 1 [Byte.x2a; Byte.x2b]
      = (64, Some pkt) /\
    firstn 64 pkt =
      [Byte.x08; Byte.x00; Byte.xc9; Byte.x01; Byte.x04; Byte.xd2; Byte.x00; Byte.x01;
       Byte.x2a; Byte.x2b] ++ repeat Byte.x00 54.
Proof.
  destruct (build_icmp_echo_wire_format Little (repeat Byte.xff 70) 1234 1
              [Byte.x2a; Byte.x2b]) as (pkt & Hb & Hp); [cbn; lia |].
  exists pkt. split; [exact Hb |]. rewrite Hp. vm_compute. reflexivity.
Defined.

(** ** The wait loop *)

Lemma wait_reply_recv_error (e : endian) (id seq tout rc : Z)
    (world : list event) (buf mac_out : list byte) :
  0 < rc ->
  wait_reply e id seq tout (Event rc RecvError :: world) buf mac_out
  = wait_reply e id seq tout world buf mac_out.
Proof.
  intros Hrc. cbn [wait_reply poll_rc rx recv].
  destruct (Z.gtb_spec rc 0); [reflexivity | lia].
Qed.

Lemma wait_reply_noise (e : endian) (id seq tout : Z) (ev : event)
    (world : list event) (buf mac_out : list byte) :
  0 <= id < 65536 -> 0 <= seq < 65536 -> noise id seq ev ->
  wait_reply e id seq tout (ev :: world) buf mac_out
  = wait_reply e id seq tout world (buffer_after ev buf) mac_out.
Proof.
  intros Hid Hseq [Hrc Hrx]. destruct ev as [rc [| frame]]; cbn [poll_rc rx] in *.
  - apply wait_reply_recv_error, Hrc.
  - rewrite wait_reply_frame by assumption. cbv zeta.
    rewrite filter_rejects by assumption. reflexivity.
Qed.

Lemma wait_reply_after_noise (e : endian) (id seq tout : Z) (pre : list event) :
  0 <= id < 65536 -> 0 <= seq < 65536 -> Forall (noise id seq) pre ->
  forall world buf mac_out,
  exists buf',
    wait_reply e id seq tout (pre ++ world) buf mac_out
    = wait_reply e id seq tout world buf' mac_out.
Proof.
  intros Hid Hseq Hpre. induction Hpre as [| ev pre Hev _ IH]; intros world buf mac_out.
  - exists buf. reflexivity.
  - cbn [app]. rewrite wait_reply_noise by assumption. apply IH.
Qed.

(** X5. A failed [recv] does not end the wait: after any number of
    iterations in which [poll] reports activity and [recv] fails, the loop
    goes on as if nothing had happened, with the local buffer and the
    caller's array unchanged. *)
Theorem wait_reply_survives_recv_errors (e : endian) (id seq tout : Z)
    (rcs : list Z) (world : list event) (buf mac_out : list byte) :
  Forall (fun rc => 0 < rc) rcs ->
  wait_reply e id seq tout (map (fun rc => Event rc RecvError) rcs ++ world) buf mac_out
  = wait_reply e id seq tout world buf mac_out.
Proof.
  induction 1 as [| rc rcs Hrc _ IH]; cbn [map app].
  - reflexivity.
  - rewrite wait_reply_recv_error by assumption. exact IH.
Qed.

Lemma wait_reply_survives_recv_errors_witness :
  wait_reply Little 1234 1 3000
    (map (fun rc => Event rc RecvError) [1; 1; 1] ++ [arrival example_reply])
    (repeat Byte.x00 2048) (repeat Byte.x00 6)
  = wait_reply Little 1234 1 3000 [arrival example_reply]
      (repeat Byte.x00 2048) (repeat Byte.x00 6).
Proof.
  apply wait_reply_survives_recv_errors. repeat constructor.
Defined.

(** X6. The first frame that passes the checks decides: when every earlier
    event is a frame that fails a check or a failed [recv], [wait_reply]
    returns 0 with the source MAC of that frame, whatever comes later. *)
Theorem wait_reply_first_match (e : endian) (id seq tout rc : Z)
    (pre : list event) (frame : list byte) (world : list event)
    (buf mac_out : list byte) :
  0 <= id < 65536 -> 0 <= seq < 65536 -> 0 < rc -> length mac_out = ETH_ALEN ->
  Forall (noise id seq) pre -> passes_all_checks id seq frame ->
  wait_reply e id seq tout (pre ++ Event rc (RecvFrame frame) :: world) buf mac_out
  = (0, source_mac frame).
Proof.
  intros Hid Hseq Hrc Hmac Hpre Hpass.
  destruct (wait_reply_after_noise e id seq tout pre Hid Hseq Hpre
              (Event rc (RecvFrame frame) :: world) buf mac_out) as [buf' ->].
  apply wait_reply_match; assumption.
Qed.

Lemma wait_reply_first_match_witness :
  wait_reply Big 1234 1 3000
    ([arrival decoy_frame; Event 1 RecvError] ++ arrival example_reply :: [arrival decoy_frame])
    (repeat Byte.x00 2048) (repeat Byte.x00 6)
  = (0, [Byte.xaa; Byte.xbb; Byte.xcc; Byte.xdd; Byte.xee; Byte.xff]).
Proof.
  apply (wait_reply_first_match Big 1234 1 3000 1
           [arrival decoy_frame; Event 1 RecvError] example_reply);
    try lia; try reflexivity.
  - constructor; [| constructor; [| constructor]].
    + split; [cbn; lia | unfold fails_a_check; vm_compute; auto 10].
    + split; [cbn; lia | exact I].
  - unfold passes_all_checks. vm_compute. repeat constructor.
Defined.

(** X7. When nothing but frames that fail a check and failed [recv] calls
    arrive before [poll] reports a timeout or an error, [wait_reply]
    returns -1 and the caller's array is as it was. *)
Theorem wait_reply_only_noise (e : endian) (id seq tout rc : Z)
    (pre : list event) (r : recv_result) (world : list event)
    (buf mac_out : list byte) :
  0 <= id < 65536 -> 0 <= seq < 65536 -> rc <= 0 ->
  Forall (noise id seq) pre ->
  wait_reply e id seq tout (pre ++ Event rc r :: world) buf mac_out = (-1, mac_out).
Proof.
  intros Hid Hseq Hrc Hpre.
  destruct (wait_reply_after_noise e id seq tout pre Hid Hseq Hpre
              (Event rc r :: world) buf mac_out) as [buf' ->].
  apply wait_reply_poll_fails, Hrc.
Qed.

Lemma wait_reply_only_noise_witness :
  wait_reply Little 1234 1 3000
    ([arrival decoy_frame; arrival (skipn 1 example_reply)]
     ++ Event 0 RecvError :: [arrival example_reply])
    (repeat Byte.x00 2048) (repeat Byte.x2a 6)
  = (-1, repeat Byte.x2a 6).
Proof.
  apply wait_reply_only_noise; try lia.
  constructor; [| constructor; [| constructor]];
    (split; [cbn; lia | unfold fails_a_check; vm_compute; auto 10]).
Defined.

Lemma nth_error_poke_other (frame bs : list byte) (off i : nat) :
  (off + length bs <= length frame)%nat ->
  (i < off \/ off + length bs <= i)%nat ->
  nth_error (poke frame off bs) i = nth_error frame i.
Proof.
  intros Hlen Hi. unfold poke. destruct Hi as [Hi | Hi].
  - rewrite nth_error_app1 by (rewrite length_firstn; lia).
    rewrite nth_error_firstn. destruct (Nat.ltb_spec i off); [reflexivity | lia].
  - rewrite nth_error_app2 by (rewrite length_firstn; lia).
    rewrite nth_error_app2 by (rewrite length_firstn; lia).
    rewrite nth_error_skipn, length_firstn. f_equal. lia.
Qed.

Lemma poke_unexamined_checks (id seq : Z) (frame bs : list byte) (off : nat) :
  passes_all_checks id seq frame -> unexamined off (length bs) ->
  checks id seq (poke frame off bs) = checks id seq frame /\
  source_mac (poke frame off bs) = source_mac frame.
Proof.
  intros Hall Hun. pose proof (passes_length id seq frame Hall) as H42.
  unfold passes_all_checks, checks in Hall.
  repeat match goal with
         | Hf : Forall _ (_ :: _) |- _ => inversion Hf; subst; clear Hf
         end.
  repeat match goal with Hp : Pass = _ |- _ => symmetry in Hp end.
  match goal with Hp : check_header_length frame = Pass |- _ =>
    destruct (expect_leb_pass _ _ Hp) as (hl & Hhl & Hmin) end.
  assert (Hoff : icmp_offset frame = Some (14 + Z.to_nat hl)%nat)
    by (unfold icmp_offset; rewrite Hhl; reflexivity).
  set (o := (14 + Z.to_nat hl)%nat) in *.
  assert (Ho : (34 <= o)%nat) by (subst o; lia).
  unfold unexamined in Hun.
  set (frame' := poke frame off bs).
  assert (Hlen : (off + length bs <= length frame)%nat) by lia.
  assert (H8 : forall i, (i < off \/ off + length bs <= i)%nat ->
                         field8 frame' i = field8 frame i)
    by (intros i Hi; apply field8_poke_other; assumption).
  assert (H16 : forall i, (S i < off \/ off + length bs <= i)%nat ->
                          field16 frame' i = field16 frame i)
    by (intros i Hi; apply field16_poke_other; assumption).
  assert (Hl : length frame' = length frame) by (apply poke_length; assumption).
  assert (Hhl' : ipv4_header_length frame' = ipv4_header_length frame)
    by (unfold ipv4_header_length; rewrite H8 by lia; reflexivity).
  assert (Hoff' : icmp_offset frame' = Some o)
    by (unfold icmp_offset; rewrite Hhl', Hhl; reflexivity).
  split.
  - unfold checks, check_length, check_ethertype, check_header_length, check_protocol,
      check_echo_reply, check_id, check_sequence.
    rewrite Hoff', Hoff, Hhl', Hl, !H8, !H16 by lia. reflexivity.
  - unfold source_mac. apply nth_error_ext. intros n.
    rewrite !nth_error_firstn, !nth_error_skipn.
    destruct (Nat.ltb_spec n 6); [| reflexivity].
    apply nth_error_poke_other; lia.
Qed.

(** X8. The filter never looks at the destination MAC, at the IPv4 type of
    service, total length, identification, fragment and time-to-live
    fields, or at the IPv4 header checksum and the source and destination
    addresses: overwriting any of these bytes in a frame that passes the
    checks leaves the outcome unchanged. In particular a reply is accepted
    from any IPv4 source address, not only from the address that was
    probed. *)
Theorem wait_reply_ignores_unexamined_bytes (e : endian) (id seq tout rc : Z)
    (frame bs : list byte) (off : nat) (world : list event)
    (buf mac_out : list byte) :
  0 < rc -> length mac_out = ETH_ALEN -> passes_all_checks id seq frame ->
  unexamined off (length bs) ->
  wait_reply e id seq tout (Event rc (RecvFrame (poke frame off bs)) :: world) buf mac_out
  = (0, source_mac frame).
Proof.
  intros Hrc Hmac Hpass Hun.
  destruct (poke_unexamined_checks id seq frame bs off Hpass Hun) as [Hchecks Hsrc].
  rewrite <- Hsrc. apply wait_reply_match; try assumption.
  unfold passes_all_checks. rewrite Hchecks. exact Hpass.
Qed.

Lemma wait_reply_ignores_unexamined_bytes_witness :
  wait_reply Little 1234 1 3000
    [arrival (poke example_reply 26
                [Byte.xc0; Byte.xa8; Byte.x01; Byte.x63;
                 Byte.xff; Byte.xff; Byte.xff; Byte.xff])]
    (repeat Byte.x00 2048) (repeat Byte.x00 6)
  = (0, [Byte.xaa; Byte.xbb; Byte.xcc; Byte.xdd; Byte.xee; Byte.xff]).
Proof.
  apply (wait_reply_ignores_unexamined_bytes Little 1234 1 3000 1 example_reply
           [Byte.xc0; Byte.xa8; Byte.x01; Byte.x63;
            Byte.xff; Byte.xff; Byte.xff; Byte.xff] 26 []);
    [lia | reflexivity | unfold passes_all_checks; vm_compute; repeat constructor
    | unfold unexamined; cbn; lia].
Defined.

Lemma firstn_skipn_nth_error (l l' : list byte) (n k i : nat) :
  firstn n (skipn k l) = l' -> (i < length l')%nat ->
  nth_error l (k + i) = nth_error l' i.
Proof.
  intros <- Hi. rewrite length_firstn in Hi.
  rewrite nth_error_firstn, nth_error_skipn.
  destruct (Nat.ltb_spec i n); [reflexivity | lia].
Qed.

Lemma field16_of_bytes (frame : list byte) (off : nat) (v : Z) :
  0 <= v < 65536 ->
  nth_error frame off = Some (z2b (v / 256)) ->
  nth_error frame (S off) = Some (z2b (v mod 256)) ->
  field16 frame off = Some v.
Proof.
  intros Hv H0 H1. destruct (byte_split v Hv) as (Hh & Hl & Hs).
  unfold field16, field8. rewrite H0, H1. cbn [option_map].
  rewrite !b2z_z2b, Zmod_mod, (Z.mod_small (v / 256)) by lia. f_equal. lia.
Qed.

(** X9. The filter accepts the echo of what the builder wrote: a frame that
    passes the first five checks and whose ICMP id and sequence bytes are
    the four bytes [build_icmp_echo] stored at offsets 4..7 of the request
    is reported as the reply, on either byte order. *)
Theorem wait_reply_accepts_echo_of_request (e : endian) (id seq tout rc : Z)
    (req now pkt frame : list byte) (off : nat) (world : list event)
    (buf mac_out : list byte) :
  (64 <= length req)%nat -> 0 <= id < 65536 -> 0 <= seq < 65536 ->
  build_icmp_echo e (Some req) id seq now = (64, Some pkt) ->
  firstn 5 (checks id seq frame) = [Pass; Pass; Pass; Pass; Pass] ->
  icmp_offset frame = Some off ->
  firstn 4 (skipn (off + 4) frame) = firstn 4 (skipn 4 pkt) ->
  0 < rc -> length mac_out = ETH_ALEN ->
  wait_reply e id seq tout (Event rc (RecvFrame frame) :: world) buf mac_out
  = (0, source_mac frame).
Proof.
  intros Hreq Hid Hseq Hbuild H5 Hoff Hecho Hrc Hmac.
  destruct (build_icmp_echo_bytes e req id seq now Hreq) as (c0 & c1 & Hb).
  rewrite Hb in Hbuild.
  assert (Hpkt : pkt = z2b 8 :: z2b 0 :: c0 :: c1
                       :: z2b (id mod 65536 / 256) :: z2b ((id mod 65536) mod 256)
                       :: z2b (seq mod 65536 / 256) :: z2b ((seq mod 65536) mod 256)
                       :: echo_payload now ++ skipn 64 req) by congruence.
  clear Hb Hbuild. subst pkt.
  rewrite (Z.mod_small id), (Z.mod_small seq) in Hecho by lia.
  rewrite !skipn_cons in Hecho. change (skipn 0 ?l) with l in Hecho.
  cbn [firstn] in Hecho.
  pose proof (fun i => firstn_skipn_nth_error frame _ 4 (off + 4) i Hecho) as Hn.
  pose proof (Hn 0%nat ltac:(cbn; lia)) as N0. pose proof (Hn 1%nat ltac:(cbn; lia)) as N1.
  pose proof (Hn 2%nat ltac:(cbn; lia)) as N2. pose proof (Hn 3%nat ltac:(cbn; lia)) as N3.
  cbn [nth_error] in N0, N1, N2, N3.
  replace (off + 4 + 0)%nat with (off + 4)%nat in N0 by lia.
  replace (off + 4 + 1)%nat with (S (off + 4)) in N1 by lia.
  replace (off + 4 + 2)%nat with (off + 6)%nat in N2 by lia.
  replace (off + 4 + 3)%nat with (S (off + 6)) in N3 by lia.
  assert (Hcid : check_id id frame = Pass).
  { unfold check_id. rewrite Hoff, (field16_of_bytes frame (off + 4) id Hid N0 N1).
    cbn [expect]. rewrite Z.eqb_refl. reflexivity. }
  assert (Hcseq : check_sequence seq frame = Pass).
  { unfold check_sequence. rewrite Hoff, (field16_of_bytes frame (off + 6) seq Hseq N2 N3).
    cbn [expect]. rewrite Z.eqb_refl. reflexivity. }
  apply wait_reply_match; try assumption.
  unfold passes_all_checks, checks in *. cbn [firstn] in H5.
  injection H5 as -> -> -> -> ->. rewrite Hcid, Hcseq. repeat constructor.
Qed.

Lemma wait_reply_accepts_echo_of_request_witness :
  wait_reply Big 1234 1 3000 [arrival example_reply]
    (repeat Byte.x00 2048) (repeat Byte.x00 6)
  = (0, source_mac example_reply).
Proof.
  apply (wait_reply_accepts_echo_of_request Big 1234 1 3000 1
           (repeat Byte.xff 64) [Byte.x2a]
           (poke (echo_request_unsummed 1234 1 [Byte.x2a]) 2
              (store16 Big (csum16 Big (echo_request_unsummed 1234 1 [Byte.x2a])))
            ++ skipn 64 (repeat Byte.xff 64))
           example_reply 34 []);
    try lia; try (vm_compute; reflexivity).
Defined.

(** ** The output *)

Lemma hex_value_digit (d : Z) : 0 <= d < 16 -> hex_value (hex_digit d) = Some d.
Proof.
  intros Hd.
  assert (H : In d [0; 1; 2; 3; 4; 5; 6; 7; 8; 9; 10; 11; 12; 13; 14; 15])
    by (cbn [In]; lia).
  cbn [In] in H.
  repeat (destruct H as [<- | H]; [reflexivity |]). contradiction.
Qed.

Lemma parse_octet_fmt (b : byte) :
  parse_octet (hex_digit (b2z b / 16)) (hex_digit (b2z b mod 16)) = Some b.
Proof.
  pose proof (b2z_range b) as Hb.
  pose proof (Z.mod_pos_bound (b2z b) 16 ltac:(lia)) as Hm.
  pose proof (Z.div_mod (b2z b) 16 ltac:(lia)) as Hdm.
  assert (Hd : 0 <= b2z b / 16 < 16)
    by (split; [apply Z.div_pos; lia | apply Z.div_lt_upper_bound; lia]).
  unfold parse_octet. rewrite !hex_value_digit by lia.
  rewrite <- Hdm, z2b_b2z. reflexivity.
Qed.

(** X10. The line written by [print_mac] is 18 characters long (six pairs
    of lowercase hexadecimal digits, five colons, a newline) and reads back
    to the six bytes it was given: no two addresses are printed alike. *)
Theorem print_mac_round_trip (m : list byte) :
  length m = ETH_ALEN ->
  String.length (print_mac m) = 18%nat /\ parse_mac (print_mac m) = Some m.
Proof.
  unfold ETH_ALEN. intros Hm.
  do 7 (try destruct m as [| ? m]); try discriminate Hm. clear Hm.
  split; [reflexivity |].
  unfold parse_mac, print_mac, fmt_02x, peek8, newline.
  cbn [nth append list_ascii_of_string parse_octets].
  rewrite !parse_octet_fmt. reflexivity.
Qed.

Lemma print_mac_round_trip_witness :
  print_mac [Byte.x00; Byte.x1b; Byte.x21; Byte.x0f; Byte.xa9; Byte.xfe]
  = ("00:1b:21:0f:a9:fe" ++ newline)%string /\
  parse_mac ("00:1b:21:0f:a9:fe" ++ newline)%string
  = Some [Byte.x00; Byte.x1b; Byte.x21; Byte.x0f; Byte.xa9; Byte.xfe].
Proof.
  destruct (print_mac_round_trip
              [Byte.x00; Byte.x1b; Byte.x21; Byte.x0f; Byte.xa9; Byte.xfe]) as [_ H];
    [reflexivity |].
  split; [reflexivity | exact H].
Defined.

(** ** main *)


(** X11. Every descriptor [main] obtains is closed exactly once before it
    returns, on every path; it never sends, waits on or closes a descriptor
    that is not open. *)
Theorem main_descriptors_ok (e : endian) (k : system) :
  descriptors_ok (run_calls (main e k)) [] = true.
Proof.
  main_branches e k; cbn [run_calls app descriptors_ok]; try reflexivity.
  all: destruct (Z.ltb_spec (sys_socket_icmp k) 0); try (exfalso; lia); try reflexivity.
  all: destruct (Z.ltb_spec (sys_socket_packet k) 0); try (exfalso; lia).
  all: cbn [is_open existsb remove_one];
    try rewrite (Z.eqb_sym (sys_socket_icmp k) (sys_socket_packet k));
    rewrite ?Z.eqb_refl; try reflexivity.
  all: destruct (Z.eqb_spec (sys_socket_packet k) (sys_socket_icmp k)) as [E | E];
    cbn [is_open existsb remove_one andb orb];
    rewrite ?E, ?Z.eqb_refl; cbn [andb orb]; rewrite ?orb_true_r; reflexivity.
Qed.




Lemma build_icmp_echo_request (e : endian) (buf : list byte) (id seq : Z)
    (now : list byte) :
  (64 <= length buf)%nat -> 0 <= id < 65536 -> 0 <= seq < 65536 ->
  exists pkt,
    build_icmp_echo e (Some buf) id seq now = (64, Some pkt) /\
    length (firstn 64 pkt) = 64%nat /\
    csum16 e (firstn 64 pkt) = 0 /\
    field8 (firstn 64 pkt) 0 = Some 8 /\
    field16 (firstn 64 pkt) 4 = Some id /\
    field16 (firstn 64 pkt) 6 = Some seq.
Proof.
  intros Hlen Hid Hseq. rewrite build_icmp_echo_packet by assumption.
  eexists. split; [reflexivity |].
  pose proof (echo_request_unsummed_length id seq now) as Hu.
  set (U := echo_request_unsummed id seq now) in *.
  assert (Hl : length (poke U 2 (store16 e (csum16 e U))) = 64%nat).
  { destruct (store16_shape e (csum16 e U)) as (c0 & c1 & ->).
    rewrite poke_length; rewrite Hu; cbn [length]; lia. }
  rewrite firstn_app, Hl, firstn_O, app_nil_r, firstn_all2 by lia.
  split; [exact Hl |]. split.
  - apply (csum16_stamped e U 2); reflexivity.
  - destruct (store16_shape e (csum16 e U)) as (c0 & c1 & ->).
    subst U. unfold echo_request_unsummed, network_order. cbn [app].
    rewrite !poke_cons, poke_head2.
    destruct (byte_split id Hid) as (Hih & Hil & Hi).
    destruct (byte_split seq Hseq) as (Hsh & Hsl & Hs).
    rewrite (Z.mod_small id), (Z.mod_small seq) by lia.
    split; [reflexivity |].
    split; unfold field16, field8; cbn [nth_error option_map];
      rewrite !b2z_z2b, !Z.mod_small by lia; f_equal; lia.
Qed.

(** X13. [main] hands at most one packet to [sendto], and only when it
    runs as root with both sockets open: a 64-byte Echo Request (type 8)
    whose checksum verifies, whose id is the low 16 bits of the process id
    and whose sequence number is 1. *)
Theorem main_sends_one_request (e : endian) (k : system) :
  (64 <= length (sys_stack_pkt k))%nat ->
  packets_sent (run_calls (main e k)) = [] \/
  exists pkt,
    packets_sent (run_calls (main e k)) = [pkt] /\
    length pkt = 64%nat /\ csum16 e pkt = 0 /\ field8 pkt 0 = Some 8 /\
    field16 pkt 4 = Some (sys_pid k mod 65536) /\ field16 pkt 6 = Some 1 /\
    sys_euid k = 0 /\ 0 <= sys_socket_icmp k /\ 0 <= sys_socket_packet k.
Proof.
  intros Hstack.
  destruct (build_icmp_echo_request e (sys_stack_pkt k) (Z.land (sys_pid k) 65535) 1
              (sys_time k) Hstack) as (p & Hp & Hl & Hc & Ht & Hi & Hs);
    [rewrite land16_mod; apply Z.mod_pos_bound; lia | lia |].
  rewrite land16_mod in Hi.
  main_branches e k; cbn [run_calls app packets_sent]; try (left; reflexivity).
  all: right; rewrite Hp in Hbuild;
    assert (Hpkt' : pkt = Some p) by congruence; subst pkt;
    exists (firstn 64 p); repeat split; assumption.
Qed.

Lemma main_sends_one_request_witness :
  exists pkt,
    packets_sent (run_calls (main Little example_system)) = [pkt] /\
    csum16 Little pkt = 0 /\ field16 pkt 4 = Some 1234.
Proof.
  destruct (main_sends_one_request Little example_system) as [H | (pkt & H & _ & Hc & _ & Hi & _)];
    [cbn; lia | vm_compute in H; discriminate |].
  exists pkt. repeat split; assumption.
Defined.

(** X14. End to end: when nothing stops [main] before the wait and the
    first frame that passes the checks (for the id of the process and
    sequence 1) arrives after any number of frames that fail one and of
    failed [recv] calls, [main] prints the source MAC of that frame, prints
    no diagnostic and exits with success. *)
Theorem main_reports_first_reply (e : endian) (k : system) (pre : list event)
    (rc : Z) (frame : list byte) (rest : list event) :
  main_ready k -> length (sys_stack_mac k) = ETH_ALEN ->
  sys_traffic k = pre ++ Event rc (RecvFrame frame) :: rest -> 0 < rc ->
  Forall (noise (sys_pid k mod 65536) 1) pre ->
  passes_all_checks (sys_pid k mod 65536) 1 frame ->
  run_status (main e k) = EXIT_SUCCESS /\
  run_stdout (main e k) = print_mac (source_mac frame) /\
  run_stderr (main e k) = EmptyString.
Proof.
  intros (Ha & Hu & Hp & Hi & Hs & Hw) Hmac Htraffic Hrc Hnoise Hpass.
  assert (Hid : 0 <= sys_pid k mod 65536 < 65536) by (apply Z.mod_pos_bound; lia).
  assert (Hwait : wait_reply e (Z.land (sys_pid k) 65535) 1 3000 (sys_traffic k)
                    (sys_stack_buf k) (sys_stack_mac k) = (0, source_mac frame)).
  { rewrite land16_mod, Htraffic.
    destruct (wait_reply_after_noise e (sys_pid k mod 65536) 1 3000 pre Hid
                ltac:(lia) Hnoise (Event rc (RecvFrame frame) :: rest)
                (sys_stack_buf k) (sys_stack_mac k)) as [buf' ->].
    apply wait_reply_match; assumption. }
  main_branches e k; try rewrite Hpton in Hp; cbn [fst] in Hp;
    try (exfalso; lia).
  unfold main_wait_and_report. rewrite Hwait.
  cbn [run_status run_stdout run_stderr status to_stdout to_stderr Z.eqb append].
  repeat split.
Qed.

Lemma main_reports_first_reply_witness :
  run_status (main Big example_system) = EXIT_SUCCESS /\
  run_stdout (main Big example_system) = print_mac (source_mac example_reply) /\
  run_stderr (main Big example_system) = EmptyString.
Proof.
  apply (main_reports_first_reply Big example_system [arrival decoy_frame] 1
           example_reply []).
  - unfold main_ready. cbn. lia.
  - reflexivity.
  - reflexivity.
  - lia.
  - constructor; [| constructor].
    split; [cbn; lia | unfold fails_a_check; vm_compute; auto 10].
  - unfold passes_all_checks. vm_compute. repeat constructor.
Defined.

(** X15. A usage error, a missing privilege or an address that does not
    parse stops [main] before it touches any descriptor: no socket is
    opened, nothing is sent, and the exit status is failure. *)
Theorem main_stops_before_sockets (e : endian) (k : system) :
  length (sys_argv k) <> 2%nat \/ sys_euid k <> 0 \/
  fst (sys_inet_pton k (nth 1 (sys_argv k) EmptyString)) <> 1 ->
  run_calls (main e k) = [] /\ run_status (main e k) = EXIT_FAILURE /\
  run_stdout (main e k) = EmptyString.
Proof.
  intros Hbad.
  main_branches e k; try rewrite Hpton in Hbad; cbn [fst] in Hbad;
    try (exfalso; lia); repeat split.
Qed.

Lemma main_stops_before_sockets_witness :
  run_calls (main Little
    {| sys_argv := ["utility"%string; "10.0.0.2"%string];
       sys_euid := 1000; sys_pid := 4242;
       sys_inet_pton := fun _ => (1, [Byte.x0a; Byte.x00; Byte.x00; Byte.x02]);
       sys_time := []; sys_errmsg := EmptyString;
       sys_socket_icmp := 3; sys_socket_packet := 4; sys_sendto := 64;
       sys_traffic := [arrival example_reply];
       sys_stack_pkt := repeat Byte.x00 64; sys_stack_buf := repeat Byte.x00 2048;
       sys_stack_mac := repeat Byte.x00 6 |}) = [].
Proof.
  apply main_stops_before_sockets. right. left. cbn. lia.
Defined.

(** X16. When [sendto] does not write exactly the 64 bytes of the request
    (an error, or a short write), [main] does not wait for a reply: it
    reports the failure of [sendto], closes both sockets and exits with
    failure, whatever traffic would have arrived. *)
Theorem main_send_failure (e : endian) (k : system) :
  length (sys_argv k) = 2%nat -> sys_euid k = 0 ->
  fst (sys_inet_pton k (nth 1 (sys_argv k) EmptyString)) = 1 ->
  0 <= sys_socket_icmp k -> 0 <= sys_socket_packet k -> sys_sendto k <> 64 ->
  run_status (main e k) = EXIT_FAILURE /\
  run_stderr (main e k) = perror k "sendto" /\
  ~ In (CallWait (sys_socket_packet k)) (run_calls (main e k)) /\
  In (CallClose (sys_socket_icmp k)) (run_calls (main e k)) /\
  In (CallClose (sys_socket_packet k)) (run_calls (main e k)).
Proof.
  intros Ha Hu Hp Hi Hs Hw.
  main_branches e k; try rewrite Hpton in Hp; cbn [fst] in Hp;
    try (exfalso; lia).
  cbn [run_status run_stderr run_calls app append In].
  repeat split; auto 10.
  intros [H | [H | [H | [H | [H | []]]]]]; discriminate.
Qed.

Lemma main_send_failure_witness :
  run_status (main Little
    {| sys_argv := ["utility"%string; "10.0.0.2"%string];
       sys_euid := 0; sys_pid := 4242;
       sys_inet_pton := fun _ => (1, [Byte.x0a; Byte.x00; Byte.x00; Byte.x02]);
       sys_time := []; sys_errmsg := "Network is unreachable"%string;
       sys_socket_icmp := 3; sys_socket_packet := 4; sys_sendto := -1;
       sys_traffic := [arrival example_reply];
       sys_stack_pkt := repeat Byte.x00 64; sys_stack_buf := repeat Byte.x00 2048;
       sys_stack_mac := repeat Byte.x00 6 |}) = EXIT_FAILURE.
Proof.
  apply main_send_failure; cbn; (reflexivity || lia).
Defined.

(** ** More on the checksum *)

Lemma word_sum_zero (e : endian) (d : list byte) :
  word_sum e d = 0 <-> Forall (eq Byte.x00) d.
Proof.
  induction d as [| b | b0 b1 d IH] using byte_pairs_ind.
  - split; [constructor | reflexivity].
  - pose proof (b2z_range b) as Rb. change (word_sum e [b]) with (0 + b2z b). split.
    + intros Hz. constructor; [symmetry; apply b2z_zero; lia | constructor].
    + intros Hz. inversion Hz; subst. reflexivity.
  - rewrite word_sum_cons2.
    pose proof (b2z_range b0) as R0. pose proof (b2z_range b1) as R1.
    pose proof (word_sum_bound e d) as [Hd _]. split.
    + intros Hz.
      assert (Hb : b2z b0 = 0 /\ b2z b1 = 0 /\ word_sum e d = 0)
        by (destruct e; cbn [word_value] in Hz; lia).
      destruct Hb as (Z0 & Z1 & Zd).
      constructor; [symmetry; apply b2z_zero, Z0 |].
      constructor; [symmetry; apply b2z_zero, Z1 |]. apply IH, Zd.
    + intros Hz. inversion Hz as [| ? ? <- Hz1]; subst.
      inversion Hz1 as [| ? ? <- Hz2]; subst.
      apply IH in Hz2. rewrite Hz2. destruct e; reflexivity.
Qed.

(** X17. [csum16] returns 0xFFFF exactly for the buffers in which every
    byte is zero (the empty buffer among them); any other buffer of at most
    2^17 bytes has a checksum between 0 and 0xFFFE. *)
Theorem csum16_ffff_iff_zero (e : endian) (d : list byte) :
  Z.of_nat (length d) <= 131072 ->
  (csum16 e d = 65535 <-> Forall (eq Byte.x00) d) /\ 0 <= csum16 e d <= 65535.
Proof.
  intros Hlen. rewrite csum16_normal, accumulator32_exact by assumption.
  pose proof (word_sum_bound e d) as [H0 _].
  destruct (ones_normal_decompose _ H0) as (k & Hk & Hs & Hz).
  pose proof (ones_normal_range (word_sum e d)) as Hr.
  split; [| lia]. rewrite <- word_sum_zero. split; intros H; [apply Hz | ]; lia.
Qed.

Lemma csum16_ffff_iff_zero_witness :
  csum16 Little (repeat Byte.x00 7) = 65535 /\
  csum16 Little [Byte.x00; Byte.x01] <> 65535.
Proof.
  destruct (csum16_ffff_iff_zero Little (repeat Byte.x00 7)) as [[_ H1] _]; [cbn; lia |].
  destruct (csum16_ffff_iff_zero Little [Byte.x00; Byte.x01]) as [[H2 _] _]; [cbn; lia |].
  split.
  - apply H1. repeat constructor.
  - intros H. apply H2 in H. inversion H as [| ? ? _ H']. inversion H'. discriminate.
Defined.

(** X18. The trailing byte of an odd-length buffer is added as a low-order
    byte whatever the byte order of the host. On a big-endian host this is
    not the RFC 1071 padding: for every buffer of odd length (at most 2^17
    bytes) whose last byte is not zero, what [csum16] returns, stored by the
    host, differs from the RFC 1071 checksum of the byte stream. *)
Theorem csum16_big_endian_odd_length (d : list byte) :
  Z.of_nat (length d) <= 131072 -> Nat.odd (length d) = true ->
  last d Byte.x00 <> Byte.x00 ->
  store16 Big (csum16 Big d) <> network_order (internet_checksum d).
Proof.
  intros Hlen Hodd Hlast.
  assert (Hst : forall v, store16 Big v = network_order v).
  { intros v. unfold store16, network_order. rewrite Z.shiftr_div_pow2 by lia.
    change (2 ^ 8) with 256. rewrite z2b_mod256. reflexivity. }
  rewrite Hst. intros H.
  pose proof (csum16_range Big d) as Rc.
  rewrite internet_checksum_normal in H.
  pose proof (ones_normal_range (fold_right Z.add 0 (network_words d))) as Rn.
  apply network_order_inj in H; [| lia | lia].
  rewrite csum16_normal, accumulator32_exact in H by assumption.
  pose proof (big_words_trailing d) as Hsum.
  assert (Ht : trailing_word d = b2z (last d Byte.x00))
    by (unfold trailing_word; rewrite Hodd; reflexivity).
  pose proof (b2z_range (last d Byte.x00)) as Rb.
  assert (Hb : b2z (last d Byte.x00) <> 0) by (intros E; apply Hlast, b2z_zero, E).
  pose proof (word_sum_bound Big d) as [H0 _].
  destruct (ones_normal_decompose _ H0) as (k & _ & Hk & _).
  destruct (ones_normal_decompose (fold_right Z.add 0 (network_words d)) ltac:(lia))
    as (k' & _ & Hk' & _).
  assert (Hdiff : 255 * b2z (last d Byte.x00) = 65535 * (k' - k)) by lia.
  assert (Hm : b2z (last d Byte.x00) = 257 * (k' - k)) by lia.
  lia.
Qed.

Lemma csum16_big_endian_odd_length_witness :
  store16 Big (csum16 Big [Byte.x12; Byte.x34; Byte.x56])
  <> network_order (internet_checksum [Byte.x12; Byte.x34; Byte.x56]).
Proof.
  apply csum16_big_endian_odd_length; [cbn; lia | reflexivity | discriminate].
Defined.

Lemma word_sum_zeros (e : endian) (n : nat) : word_sum e (repeat Byte.x00 n) = 0.
Proof. apply word_sum_zero, Forall_forall. intros x Hx. symmetry. exact (repeat_spec _ _ _ Hx). Qed.

Lemma word_sum_little_pad (d : list byte) (n : nat) :
  word_sum Little (d ++ repeat Byte.x00 n) = word_sum Little d.
Proof.
  induction d as [| b | b0 b1 d IH] using byte_pairs_ind.
  - apply word_sum_zeros.
  - destruct n as [| n]; [reflexivity |].
    cbn [app repeat]. rewrite word_sum_cons2, word_sum_zeros.
    change (word_sum Little [b]) with (0 + b2z b). cbn [word_value].
    change (b2z Byte.x00) with 0. lia.
  - cbn [app]. rewrite !word_sum_cons2, IH. reflexivity.
Qed.

(** X19. Zero padding does not change the checksum: appending zero bytes to
    a buffer leaves [csum16] unchanged on a little-endian host, and on a
    big-endian host when the buffer has an even length (total length at
    most 2^17 bytes). *)
Theorem csum16_zero_padding (e : endian) (d : list byte) (n : nat) :
  Z.of_nat (length d + n) <= 131072 ->
  e = Little \/ Nat.even (length d) = true ->
  csum16 e (d ++ repeat Byte.x00 n) = csum16 e d.
Proof.
  intros Hlen Hcase.
  rewrite !csum16_normal, !accumulator32_exact
    by (rewrite ?length_app, ?repeat_length; lia).
  f_equal. f_equal. destruct Hcase as [-> | Hev].
  - apply word_sum_little_pad.
  - rewrite word_sum_app, word_sum_zeros by assumption. lia.
Qed.

Lemma csum16_zero_padding_witness :
  csum16 Little ([Byte.x12; Byte.x34; Byte.x56] ++ repeat Byte.x00 3)
  = csum16 Little [Byte.x12; Byte.x34; Byte.x56].
Proof. apply csum16_zero_padding; [cbn; lia | left; reflexivity]. Defined.
